(** * konstructio/cli-utils: the [stepper] and [cfg] packages

    A shallow embedding of the two Go packages of the repository and the
    properties of their public operations.

    - [Stepper] embeds [stepper/stepper.go] and [stepper/errors.go]: a step
      that is completed once, with its [uint32] call counter.
    - [Cfg] embeds package [cfg]: the gob-backed configuration store, with
      the file system, the I/O failures and the gob codec made explicit. *)

From Stdlib Require Import ZArith NArith Lia Strings.Byte.
From Stdlib Require Import Floats.SpecFloat.
From stdpp Require Import gmap strings list.

Local Open Scope string_scope.
Local Open Scope Z_scope.

(** Single characters that a Rocq string literal cannot spell. *)
Definition chr (n : nat) : string := String (Ascii.ascii_of_nat n) EmptyString.
Definition CR : string := chr 13.
Definition LF : string := chr 10.

(* ===================================================================== *)
(** * Package stepper                                                     *)
(* ===================================================================== *)

Module Stepper.

(** Go [error] values seen by this package: the package's own
    [AlreadyCompletedError] (held by pointer), or any other error, known
    by its message. *)
Inductive error :=
| AlreadyCompletedError (Name : string)
| errorString (msg : string).

(** [uint32] arithmetic: [s.done++] wraps around at [2^32]. *)
Definition uint32_max : Z := 2 ^ 32.
Definition uint32_incr (n : Z) : Z := (n + 1) mod uint32_max.

(** The frames given to the spinner by [sp.Set], one per rune. *)
Definition frames : list string :=
  ["🕐"; "🕑"; "🕒"; "🕓"; "🕔"; "🕕"; "🕖"; "🕗"; "🕘"; "🕙"; "🕚"; "🕛"].

(** [spin.Spinner.Next]: the frame at the current position (the caller
    advances the position). *)
Definition spinner_Next (pos : nat) : string :=
  nth (pos mod length frames)%nat frames EmptyString.

(** The [Step] struct. The writer is modelled by the text written to it so
    far, the spinner by its position, the background goroutine by
    [running] (it has not yet received a result; [chDone] is open), and
    [sync.Once] by the flag [onceComplete]. *)
Record Step := mkStep {
  name : string;
  output : string;
  spinner : nat;
  running : bool;
  done : Z;
  onceComplete : bool;
}.

Section WithQuote.

(** [strconv.Quote], used by the [%q] verb of [fmt.Sprintf]. *)
Variable Quote : string -> string.

(** The [Error] method of [AlreadyCompletedError] and of other errors. *)
Definition Error (e : error) : string :=
  match e with
  | AlreadyCompletedError n => "step " ++ Quote n ++ " already completed"
  | errorString msg => msg
  end.

(** The [Is] method of [AlreadyCompletedError]. *)
Definition Is (e target : error) : bool :=
  match target with
  | AlreadyCompletedError _ => true
  | errorString _ => false
  end.

(** [New]: the step as it is returned; the goroutine is started and has
    drawn nothing yet. *)
Definition New (out : string) (nm : string) : Step :=
  mkStep nm out 0 true 0 false.

Definition GetName (s : Step) : string := name s.

(** One turn of the goroutine's loop through the [default] branch: it
    redraws the spinner. Nothing happens once the goroutine has returned. *)
Definition tick (s : Step) : Step :=
  if running s then
    mkStep (name s)
           (output s ++ CR ++ spinner_Next (spinner s) ++ " " ++ name s)
           (S (spinner s)) true (done s) (onceComplete s)
  else s.

(** What the goroutine prints when it receives [err] on [chResult]. *)
Definition final_line (nm : string) (err : option error) : string :=
  match err with
  | None => CR ++ "✅ " ++ nm ++ LF
  | Some e => CR ++ "🔴 " ++ nm ++ " - error: " ++ Error e ++ LF
  end.

(** [Step.Complete]. The counter is incremented first (wrapping as a
    [uint32] does); [onceComplete.Do] runs its function on the first call
    only: it hands [err] to the goroutine, which prints the final line and
    returns, and the call's result becomes [err]. *)
Definition Complete (s : Step) (err : option error) : Step * option error :=
  let d := uint32_incr (done s) in
  let returnErr :=
    if 1 <? d then Some (AlreadyCompletedError (name s)) else None in
  if onceComplete s then
    (mkStep (name s) (output s) (spinner s) (running s) d true, returnErr)
  else
    (mkStep (name s) (output s ++ final_line (name s) err) (spinner s)
            false d true,
     err).

(** [n] further calls of [Complete], results dropped. *)
Definition complete_calls (n : N) (s : Step) : Step :=
  N.iter n (fun s => fst (Complete s None)) s.

(** What can happen to a step, one thing after the other: the goroutine
    goes once through its loop, or the program calls [Complete]. *)
Inductive event :=
| Redraw
| Completes (err : option error).

Definition after (s : Step) (ev : event) : Step :=
  match ev with
  | Redraw => tick s
  | Completes err => fst (Complete s err)
  end.

Definition history (evs : list event) (s : Step) : Step :=
  fold_left after evs s.

End WithQuote.

End Stepper.

(* ===================================================================== *)
(** * Package cfg                                                         *)
(* ===================================================================== *)

Module Cfg.

(** ** Go values

    [Set] takes an [interface{}]: a value with its dynamic type. The
    integer types carry their value as a [Z], the two floating-point types
    an IEEE 754 number of their format, and a value of any other type
    (a struct, a slice, ...) is known by its type's name, which is all
    that [Set] looks at. *)
Inductive intkind :=
| Int | Int8 | Int16 | Int32 | Int64
| Uint | Uint8 | Uint16 | Uint32 | Uint64 | Uintptr.

Inductive value :=
| VInteger (k : intkind) (n : Z)
| VFloat32 (f : spec_float)
| VFloat64 (f : spec_float)
| VString (s : string)
| VBool (b : bool)
| VOther (T : string).

(** The [%T] verb: the name of the dynamic type. *)
Definition intkind_name (k : intkind) : string :=
  match k with
  | Int => "int" | Int8 => "int8" | Int16 => "int16" | Int32 => "int32"
  | Int64 => "int64" | Uint => "uint" | Uint8 => "uint8"
  | Uint16 => "uint16" | Uint32 => "uint32" | Uint64 => "uint64"
  | Uintptr => "uintptr"
  end.

Definition typeName (v : value) : string :=
  match v with
  | VInteger k _ => intkind_name k
  | VFloat32 _ => "float32"
  | VFloat64 _ => "float64"
  | VString _ => "string"
  | VBool _ => "bool"
  | VOther T => T
  end.

(** ** Numeric conversions

    [float64] is binary64: 53 bits of precision, infinities at exponent
    1024. A conversion to [float64] rounds to the nearest value, ties to
    even. *)
Definition float64_of_Z (n : Z) : spec_float :=
  binary_normalize 53 1024 n 0 false.

(** [float64(v)] for [v] a [float32]: every binary32 number is a binary64
    number; only the mantissa is realigned. *)
Definition float64_of_float32 (f : spec_float) : spec_float :=
  match f with
  | S754_finite s m e => binary_round 53 1024 s m e
  | _ => f
  end.

(** The integer part of a finite number, [None] for NaN and infinities.
    A finite number is [(-1)^s * m * 2^e]. *)
Definition float_trunc (f : spec_float) : option Z :=
  match f with
  | S754_zero _ => Some 0
  | S754_finite s m e => Some (cond_Zopp s (Z.shiftl (Zpos m) e))
  | S754_infinity _ | S754_nan => None
  end.

(** What the language leaves to the implementation: the width of [int],
    and the result of converting to [int] a number that [int] cannot
    hold. *)
Record Arch := mkArch {
  intSize : Z;
  cvt_indefinite : spec_float -> Z;
}.

Definition fits_int (arch : Arch) (z : Z) : bool :=
  (- 2 ^ (intSize arch - 1) <=? z) && (z <? 2 ^ (intSize arch - 1)).

(** [int(v)] for [v] a [float64]: the fraction is discarded. *)
Definition int_of_float64 (arch : Arch) (f : spec_float) : Z :=
  match float_trunc f with
  | Some z => if fits_int arch z then z else cvt_indefinite arch f
  | None => cvt_indefinite arch f
  end.

(** amd64: [int] has 64 bits, and CVTTSD2SQ answers the "integer
    indefinite" value [-2^63] when the number does not fit. *)
Definition amd64 : Arch := mkArch 64 (fun _ => - 2 ^ 63).

(** ** Errors *)
Inductive syscall :=
| SysOpen | SysStat | SysRead | SysSeek | SysTruncate | SysWrite | SysSync
| SysClose.

Inductive error :=
| PathError (op : syscall) (name : string)
| EOF
| GobError (msg : string)
| errorString (msg : string)
| unsupportedType (T : string)
| wrapError (msg : string) (err : error).

(** [err == io.EOF]. *)
Definition is_EOF (e : error) : bool :=
  match e with EOF => true | _ => false end.

(** ** The Config struct

    [data] is a Go map, [None] being the nil map; [file] is the open
    handle, known by the path it was opened on, [None] being nil. The
    mutex is not modelled: operations run one after the other. *)
Record Config := mkConfig {
  data : option (gmap string value);
  file : option string;
  path : string;
}.

(** [c.data[key]] as an r-value: reading a nil map finds nothing. *)
Definition index (d : option (gmap string value)) (key : string)
  : option value :=
  match d with
  | Some m => m !! key
  | None => None
  end.

(** ** The getters *)
Definition GetString (c : Config) (key : string) : string * bool :=
  match index (data c) key with
  | None => (EmptyString, false)
  | Some val =>
      match val with
      | VString s => (s, true)
      | _ => (EmptyString, false)
      end
  end.

Definition GetInt (arch : Arch) (c : Config) (key : string) : Z * bool :=
  match index (data c) key with
  | None => (0, false)
  | Some val =>
      match val with
      | VFloat64 v => (int_of_float64 arch v, true)
      | VInteger Int v => (v, true)
      | _ => (0, false)
      end
  end.

Definition GetFloat64 (c : Config) (key : string) : spec_float * bool :=
  match index (data c) key with
  | None => (S754_zero false, false)
  | Some val =>
      match val with
      | VFloat64 v => (v, true)
      | _ => (S754_zero false, false)
      end
  end.

Definition GetBool (c : Config) (key : string) : bool * bool :=
  match index (data c) key with
  | None => (false, false)
  | Some val =>
      match val with
      | VBool v => (v, true)
      | _ => (false, false)
      end
  end.

(** The type switch at the head of [Set]: the value to store, or [None]
    in the [default] case. *)
Definition normalize (value : value) : option Cfg.value :=
  match value with
  | VInteger Int v => Some (VFloat64 (float64_of_Z v))
  | VInteger Int32 v => Some (VFloat64 (float64_of_Z v))
  | VInteger Int64 v => Some (VFloat64 (float64_of_Z v))
  | VFloat32 v => Some (VFloat64 (float64_of_float32 v))
  | VString _ | VBool _ | VFloat64 _ => Some value
  | _ => None
  end.

(** ** The operating system

    The files by path, and the system calls made so far, latest first.
    An [Env] says which system calls fail during one operation, and how
    many bytes a failing write leaves behind. *)
Record World := mkWorld {
  files : gmap string (list byte);
  trace : list (syscall * string);
}.

Record Env := mkEnv {
  fails : syscall -> bool;
  short_write : nat;
}.

Definition record_call (op : syscall) (name : string) (w : World) : World :=
  mkWorld (files w) ((op, name) :: trace w).

Definition content (w : World) (name : string) : list byte :=
  default [] (files w !! name).

Definition set_content (name : string) (bs : list byte) (w : World) : World :=
  mkWorld (<[name := bs]> (files w)) (trace w).

(** [O_CREATE]: a missing file comes into being, empty. *)
Definition create_if_missing (name : string) (w : World) : World :=
  match files w !! name with
  | Some _ => w
  | None => set_content name [] w
  end.

(** ** encoding/gob

    The codec is not part of the repository: [gobEncode d] is the bytes
    that [Encode] emits for the map [d] and the error it returns;
    [gobDecode bs] is what [Decode(&data)] leaves in [data] (nil at
    first) and the error it returns, reading [bs]. *)
Record Gob := mkGob {
  gobEncode : option (gmap string value) -> list byte * option error;
  gobDecode : list byte -> option (gmap string value) * option error;
}.

(** ** Methods as state transformers

    A method of [*Config] runs in an environment, on the receiver and the
    world; it returns normally, returns an error, or panics. *)
Inductive result (A : Type) :=
| Ok (a : A)
| Err (e : error)
| Panic (msg : string).
Arguments Ok {A} a.
Arguments Err {A} e.
Arguments Panic {A} msg.

Definition M (A : Type) : Type :=
  Env -> Config -> World -> Config * World * result A.

Definition ret {A} (a : A) : M A := fun _ c w => (c, w, Ok a).
Definition throw {A} (e : error) : M A := fun _ c w => (c, w, Err e).
Definition panic {A} (msg : string) : M A := fun _ c w => (c, w, Panic msg).

Definition bind {A B} (m : M A) (k : A -> M B) : M B :=
  fun env c w =>
    match m env c w with
    | (c', w', Ok a) => k a env c' w'
    | (c', w', Err e) => (c', w', Err e)
    | (c', w', Panic msg) => (c', w', Panic msg)
    end.

(** [if err != nil { ... }] after a call: the handler sees the error. *)
Definition orelse {A} (m : M A) (h : error -> M A) : M A :=
  fun env c w =>
    match m env c w with
    | (c', w', Err e) => h e env c' w'
    | r => r
    end.

#[local] Instance M_ret : MRet M := @ret.
#[local] Instance M_bind : MBind M := fun A B k m => bind m k.

Definition self : M Config := fun _ c w => (c, w, Ok c).
Definition inspect {A} (f : World -> A) : M A := fun _ c w => (c, w, Ok (f w)).
Definition store_data (d : option (gmap string value)) : M unit :=
  fun _ c w => (mkConfig d (file c) (path c), w, Ok tt).
Definition store_file (f : option string) : M unit :=
  fun _ c w => (mkConfig (data c) f (path c), w, Ok tt).

(** A system call on the file [name]: it is recorded; it fails when the
    environment says so, and has its effect on the world otherwise. *)
Definition sys (op : syscall) (name : string) (effect : World -> World)
  : M unit :=
  fun env c w =>
    let w' := record_call op name w in
    if fails env op then (c, w', Err (PathError op name))
    else (c, effect w', Ok tt).

(** [os.OpenFile(name, O_RDWR|O_CREATE, 0o644)]: the handle. *)
Definition OpenFile (name : string) : M string :=
  sys SysOpen name (create_if_missing name) ;; mret name.

(** [file.Stat()], of which only [Size()] is used. *)
Definition StatSize (f : string) : M nat :=
  sys SysStat f id ;;
  inspect (fun w => length (content w f)).

(** [file.Close()] with its result dropped. *)
Definition Close_ (f : string) : M unit :=
  orelse (sys SysClose f id) (fun _ => mret tt).

(** [gob.NewDecoder(file).Decode(&data)] on a handle at offset 0: the new
    [data] and the error. A failing read is the decoder's error. *)
Definition Decode (gob : Gob) (f : string)
  : M (option (gmap string value) * option error) :=
  orelse (sys SysRead f id ;;
          inspect (fun w => gobDecode gob (content w f)))
         (fun e => mret (None, Some e)).

(** [gob.NewEncoder(file).Encode(data)] on an empty file at offset 0: the
    bytes the encoder emits reach the file, all of them or, when the
    write fails, the first [short_write]. The encoder hands its bytes to
    the file message by message, in as many [Write] calls: the trace
    keeps one [SysWrite] entry for all of them, and says nothing of their
    number. *)
Definition Encode (gob : Gob) (f : string) (d : option (gmap string value))
  : M unit :=
  let '(bs, err) := gobEncode gob d in
  orelse (sys SysWrite f (set_content f bs))
         (fun e env c w =>
            (c, set_content f (take (short_write env) bs) w, Err e)) ;;
  match err with
  | Some e => throw e
  | None => mret tt
  end.

(** [fmt.Errorf(msg + ": %w", err)]. *)
Definition wrap (msg : string) : error -> error := wrapError msg.

Section WithGob.

Variable gob : Gob.

(** ** readFromFile *)
Definition readFromFile : M unit :=
  c ← self;
  file ← orelse (OpenFile (path c))
    (fun err => throw (wrap "unable to open config file" err));
  size ← orelse (StatSize file)
    (fun err =>
       Close_ file ;;
       throw (wrap "unable to stat config file" err));
  data ←
    (if (0 <? size)%nat then
       '(data, err) ← Decode gob file;
       match err with
       | Some err =>
           if negb (is_EOF err) then
             Close_ file ;;
             throw (wrap "unable to decode config file as JSON" err)
           else mret data
       | None => mret data
       end
     else mret (Some ∅));
  orelse (sys SysSeek file id)
    (fun err =>
       Close_ file ;;
       throw (wrap "unable to seek config file" err)) ;;
  store_data data ;;
  store_file (Some file).

(** ** New: the receiver starts with its path only; it is returned when
    [readFromFile] succeeds. *)
Definition New (path : string) (env : Env) (w : World)
  : World * result Config :=
  match readFromFile env (mkConfig None None path) w with
  | (c, w', Ok _) => (w', Ok c)
  | (_, w', Err e) => (w', Err e)
  | (_, w', Panic msg) => (w', Panic msg)
  end.

(** ** flushUnsafeLocked *)
Definition flushUnsafeLocked : M unit :=
  c ← self;
  match file c with
  | None => throw (errorString "config file not available")
  | Some f =>
      sys SysTruncate f (set_content f []) ;;
      sys SysSeek f id ;;
      Encode gob f (data c) ;;
      sys SysSync f id
  end.

(** ** Set (named [Set_], [Set] being a sort). Writing to a nil map
    panics. *)
Definition Set_ (key : string) (value : value) : M unit :=
  match normalize value with
  | None => throw (unsupportedType (typeName value))
  | Some value =>
      c ← self;
      match data c with
      | None => panic "assignment to entry in nil map"
      | Some m => store_data (Some (<[key := value]> m))
      end ;;
      flushUnsafeLocked
  end.

(** ** Finish. When the close fails, [c.file] keeps the handle, as in the
    source. What the operating system has done of the descriptor by then
    is not in the model: whether later calls on that handle fail is, as
    for every call, for the environment of those calls to say. *)
Definition Finish : M unit :=
  c ← self;
  match file c with
  | None => throw (errorString "config file already closed")
  | Some f =>
      orelse flushUnsafeLocked
        (fun err => throw (wrap "failed to flush config" err)) ;;
      orelse (sys SysClose f id)
        (fun err => throw (wrap "failed to close config file" err)) ;;
      store_file None
  end.

(** ** GetAll: the copy of a nil map is an empty map. *)
Definition GetAll : M (gmap string value) :=
  readFromFile ;;
  c ← self;
  mret (default ∅ (data c)).

End WithGob.

End Cfg.

(* ===================================================================== *)
(** * A codec to run the store on                                         *)
(* ===================================================================== *)

(** The store is parametric in the codec. [Wire.codec] is a small codec
    of the same shape as gob's stream, used to run the store on concrete
    files: a stream is a message, a byte count in gob's encoding of
    unsigned integers followed by that many bytes. The payload is simpler
    than gob's (no type descriptors): the number of entries, then for each
    entry its key, a tag and the value. As with gob, input that ends
    before the first byte, or a message of length zero, in which no type
    id can be read, ends the decoding with [io.EOF]; input that ends
    anywhere else is an unexpected EOF. *)
Module Wire.
Import Cfg.
Local Open Scope list_scope.

Definition byte_of_Z (n : Z) : byte := default x00 (Byte.of_N (Z.to_N n)).
Definition Z_of_byte (b : byte) : Z := Z.of_N (Byte.to_N b).

(** The [k] low-order bytes of [n], most significant first, and back. *)
Fixpoint be_bytes (k : nat) (n : Z) : list byte :=
  match k with
  | O => []
  | S k' => be_bytes k' (n / 256) ++ [byte_of_Z (n mod 256)]
  end.

Definition be_value (bs : list byte) : Z :=
  fold_left (fun acc b => acc * 256 + Z_of_byte b) bs 0.

(** An unsigned integer: below 128 one byte; otherwise the negated byte
    count, then the bytes. At most 8 bytes. *)
Definition encUint (n : Z) : option (list byte) :=
  if (n <? 0) || (2 ^ 64 <=? n) then None
  else if n <=? 127 then Some [byte_of_Z n]
  else
    let k := Z.to_nat (Z.log2 n / 8 + 1) in
    Some (byte_of_Z (256 - Z.of_nat k) :: be_bytes k n).

Definition parser (A : Type) : Type := list byte -> option (A * list byte).

Definition decUint : parser Z := fun bs =>
  match bs with
  | [] => None
  | b :: rest =>
      let v := Z_of_byte b in
      if v <=? 127 then Some (v, rest)
      else
        let k := Z.to_nat (256 - v) in
        if (8 <? k)%nat || (length rest <? k)%nat then None
        else Some (be_value (take k rest), drop k rest)
  end.

(** A signed integer inside an unsigned one: bit 0 says whether the other
    bits are complemented. *)
Definition encInt (i : Z) : option (list byte) :=
  encUint (if i <? 0 then 2 * (- i - 1) + 1 else 2 * i).

Definition decInt : parser Z := fun bs =>
  match decUint bs with
  | Some (u, rest) =>
      Some (if Z.odd u then - (u / 2) - 1 else u / 2, rest)
  | None => None
  end.

Definition encBool (b : bool) : list byte := [if b then x01 else x00].

Definition decBool : parser bool := fun bs =>
  match bs with
  | x00 :: rest => Some (false, rest)
  | x01 :: rest => Some (true, rest)
  | _ => None
  end.

Definition encString (s : string) : option (list byte) :=
  let bs := String.list_byte_of_string s in
  n ← encUint (Z.of_nat (length bs)); Some (n ++ bs).

Definition decString : parser string := fun bs =>
  match decUint bs with
  | Some (n, rest) =>
      let k := Z.to_nat n in
      if (length rest <? k)%nat then None
      else Some (String.string_of_list_byte (take k rest), drop k rest)
  | None => None
  end.

Definition encFloat (f : spec_float) : option (list byte) :=
  match f with
  | S754_zero s => Some (x00 :: encBool s)
  | S754_infinity s => Some (x01 :: encBool s)
  | S754_nan => Some [x02]
  | S754_finite s m e =>
      mb ← encUint (Zpos m); eb ← encInt e;
      Some (x03 :: encBool s ++ mb ++ eb)
  end.

Definition decFloat : parser spec_float := fun bs =>
  match bs with
  | x00 :: rest => '(s, rest) ← decBool rest; Some (S754_zero s, rest)
  | x01 :: rest => '(s, rest) ← decBool rest; Some (S754_infinity s, rest)
  | x02 :: rest => Some (S754_nan, rest)
  | x03 :: rest =>
      '(s, rest) ← decBool rest;
      '(m, rest) ← decUint rest;
      '(e, rest) ← decInt rest;
      match m with
      | Zpos m => Some (S754_finite s m e, rest)
      | _ => None
      end
  | _ => None
  end.

(** The values an interface can carry on this wire: strings, booleans,
    [float64] and [int]. *)
Definition encValue (v : value) : option (list byte) :=
  match v with
  | VString s => b ← encString s; Some (x01 :: b)
  | VBool b => Some (x02 :: encBool b)
  | VFloat64 f => b ← encFloat f; Some (x03 :: b)
  | VInteger Int n => b ← encInt n; Some (x04 :: b)
  | _ => None
  end.

Definition decValue : parser value := fun bs =>
  match bs with
  | x01 :: rest => '(s, rest) ← decString rest; Some (VString s, rest)
  | x02 :: rest => '(b, rest) ← decBool rest; Some (VBool b, rest)
  | x03 :: rest => '(f, rest) ← decFloat rest; Some (VFloat64 f, rest)
  | x04 :: rest => '(n, rest) ← decInt rest; Some (VInteger Int n, rest)
  | _ => None
  end.

Fixpoint encEntries (l : list (string * value)) : option (list byte) :=
  match l with
  | [] => Some []
  | (k, v) :: l' =>
      kb ← encString k; vb ← encValue v; rest ← encEntries l';
      Some (kb ++ vb ++ rest)
  end.

Fixpoint decEntries (n : nat) (m : gmap string value) : parser (gmap string value) :=
  fun bs =>
    match n with
    | O => Some (m, bs)
    | S n' =>
        '(k, rest) ← decString bs;
        '(v, rest) ← decValue rest;
        decEntries n' (<[k := v]> m) rest
    end.

Definition encPayload (m : gmap string value) : option (list byte) :=
  n ← encUint (Z.of_nat (size m));
  es ← encEntries (map_to_list m);
  Some (x40 :: n ++ es).

Definition encode (d : option (gmap string value))
  : list byte * option error :=
  match encPayload (default ∅ d) with
  | Some p =>
      match encUint (Z.of_nat (length p)) with
      | Some n => (n ++ p, None)
      | None => ([], Some (GobError "message too big"))
      end
  | None => ([], Some (GobError "type not registered for interface"))
  end.

Definition unexpectedEOF : error := GobError "unexpected EOF".

Definition decode (bs : list byte)
  : option (gmap string value) * option error :=
  match bs with
  | [] => (None, Some EOF)
  | _ =>
      match decUint bs with
      | None => (None, Some unexpectedEOF)
      | Some (n, rest) =>
          if (length rest <? Z.to_nat n)%nat then (None, Some unexpectedEOF)
          else
            match take (Z.to_nat n) rest with
            | [] => (None, Some EOF)
            | x40 :: p =>
                match '(n, p) ← decUint p; decEntries (Z.to_nat n) ∅ p with
                | Some (m, []) => (Some m, None)
                | _ => (None, Some (GobError "bad data"))
                end
            | _ => (None, Some (GobError "bad data"))
            end
      end
  end.

Definition codec : Gob := mkGob encode decode.

(** An environment in which no system call fails. *)
Definition calm : Env := mkEnv (fun _ => false) 0.

(** The world before anything has been written. *)
Definition nothing : World := mkWorld ∅ [].

(** A store just opened on a path that did not exist, and its world. *)
Definition path0 : string := "config.gob".
Definition c0 : Config := mkConfig (Some ∅) (Some path0) path0.
Definition w0 : World :=
  mkWorld {[ path0 := [] ]}
          [(SysSeek, path0); (SysStat, path0); (SysOpen, path0)].

(** Environments in which one system call fails, and nothing else. *)
Definition open_fails : Env :=
  mkEnv (fun op => match op with SysOpen => true | _ => false end) 0.
Definition seek_fails : Env :=
  mkEnv (fun op => match op with SysSeek => true | _ => false end) 0.
Definition write_fails : Env :=
  mkEnv (fun op => match op with SysWrite => true | _ => false end) 3.

(** An environment in which [Sync] fails, and nothing else. *)
Definition sync_fails : Env :=
  mkEnv (fun op => match op with SysSync => true | _ => false end) 0.

(** A file of text that is no stream, and a file holding one message of
    length zero. *)
Definition garbage : World :=
  mkWorld {[ path0 := String.list_byte_of_string "not a valid gob" ]} [].
Definition zero_message : World := mkWorld {[ path0 := [x00] ]} [].

(** 3.9 and [2^100] in binary64. *)
Definition f3_9 : spec_float := S754_finite false 8782019273372467 (-51).
Definition f2_100 : spec_float := S754_finite false 4503599627370496 48.

End Wire.

(* ===================================================================== *)
(** * Reference notions                                                   *)
(* ===================================================================== *)

(** Truncation toward zero, stated on the number itself: the finite
    number [(-1)^s * m * 2^e] is the fraction of [(-1)^s * m * 2^max(e,0)]
    by [2^max(-e,0)], and [Z.quot] rounds a fraction toward zero. NaN and
    the infinities have no integer part. *)
Definition truncated_toward_zero (f : spec_float) (z : Z) : Prop :=
  match f with
  | S754_zero _ => z = 0
  | S754_finite s m e =>
      z = Z.quot (cond_Zopp s (Zpos m) * 2 ^ Z.max e 0) (2 ^ Z.max (- e) 0)
  | S754_infinity _ | S754_nan => False
  end.

(* ===================================================================== *)
(** * Properties of package stepper                                       *)
(* ===================================================================== *)

Section StepperFacts.
Import Stepper.

Variable Quote : string -> string.

Lemma uint32_incr_range (n : Z) : 0 <= uint32_incr n < uint32_max.
Proof. unfold uint32_incr, uint32_max. apply Z.mod_pos_bound. lia. Qed.

(** A call changes the counter, and nothing else once the step is
    completed. *)
Lemma Complete_done (s : Step) (err : option error) :
  done (fst (Complete Quote s err)) = uint32_incr (done s).
Proof. unfold Complete. by destruct (onceComplete s). Qed.

Lemma Complete_once (s : Step) (err : option error) :
  onceComplete (fst (Complete Quote s err)) = true.
Proof. unfold Complete. by destruct (onceComplete s). Qed.

Lemma Complete_name (s : Step) (err : option error) :
  name (fst (Complete Quote s err)) = name s.
Proof. unfold Complete. by destruct (onceComplete s). Qed.

Lemma Complete_completed_output (s : Step) (err : option error) :
  onceComplete s = true ->
  output (fst (Complete Quote s err)) = output s.
Proof. unfold Complete. by intros ->. Qed.

(** The first call on a new step: the final line is written, and the
    result is the error that was passed. *)
Lemma Complete_first (out nm : string) (err : option error) :
  Complete Quote (New out nm) err =
    (mkStep nm (out ++ final_line Quote nm err)%string 0 false 1 true, err).
Proof. reflexivity. Qed.

(** A call on a completed step answers by the counter alone. *)
Lemma Complete_again (s : Step) (err : option error) :
  onceComplete s = true ->
  snd (Complete Quote s err) =
    if 1 <? uint32_incr (done s)
    then Some (AlreadyCompletedError (name s)) else None.
Proof. unfold Complete. by intros ->. Qed.

Lemma complete_calls_succ (n : N) (s : Step) :
  complete_calls Quote (N.succ n) s =
    fst (Complete Quote (complete_calls Quote n s) None).
Proof. unfold complete_calls. by rewrite N.iter_succ. Qed.

(** After [n] calls the counter holds [n] modulo [2^32]. *)
Lemma complete_calls_done (n : N) (s : Step) :
  0 <= done s < uint32_max ->
  done (complete_calls Quote n s) = (done s + Z.of_N n) mod uint32_max.
Proof.
  intros Hs. induction n as [|n IH] using N.peano_ind.
  - cbn. rewrite Z.add_0_r, Z.mod_small; [done | lia].
  - rewrite complete_calls_succ, Complete_done, IH. unfold uint32_incr.
    rewrite Zplus_mod_idemp_l. f_equal. lia.
Qed.

Lemma complete_calls_once (n : N) (s : Step) :
  (0 < n)%N -> onceComplete (complete_calls Quote n s) = true.
Proof.
  destruct (N.eq_dec n 0%N) as [->|Hn]; [lia|]. intros _.
  rewrite <- (N.succ_pred n Hn), complete_calls_succ. apply Complete_once.
Qed.

Lemma complete_calls_name (n : N) (s : Step) :
  name (complete_calls Quote n s) = name s.
Proof.
  induction n as [|n IH] using N.peano_ind; [done|].
  by rewrite complete_calls_succ, Complete_name.
Qed.

(** Up to the [2^32 - 1]th call, every call after the first is answered
    with [AlreadyCompletedError]. *)
Lemma Complete_again_before_wrap (n : N) (out nm : string) (err : option error) :
  (1 <= n < 2 ^ 32 - 1)%N ->
  snd (Complete Quote (complete_calls Quote n (New out nm)) err) =
    Some (AlreadyCompletedError nm).
Proof.
  intros Hn. rewrite Complete_again by (apply complete_calls_once; lia).
  rewrite complete_calls_done by (cbn; unfold uint32_max; lia).
  rewrite complete_calls_name. cbn [New done name].
  unfold uint32_incr, uint32_max.
  rewrite Zplus_mod_idemp_l, Z.mod_small by lia.
  destruct (Z.ltb_spec 1 (0 + Z.of_N n + 1)); [done | lia].
Qed.

(** C9 (the code at the failing input). On a step that has been completed
    [2^32 - 1] times, the next call of [Complete] brings the [uint32]
    counter back to 0: the call writes nothing and returns nil, not an
    [AlreadyCompletedError]. *)
Theorem Complete_silent_at_wrap (out nm : string) (err : option error) :
  let s := complete_calls Quote (2 ^ 32 - 1) (New out nm) in
  snd (Complete Quote s err) = None /\
  output (fst (Complete Quote s err)) = output s /\
  done (fst (Complete Quote s err)) = 0.
Proof.
  intros s.
  assert (Hd : done s = 2 ^ 32 - 1).
  { unfold s. rewrite complete_calls_done by (cbn; unfold uint32_max; lia).
    cbn [New done]. unfold uint32_max. by rewrite Z.mod_small by lia. }
  assert (Ho : onceComplete s = true) by (apply complete_calls_once; lia).
  split_and!.
  - rewrite Complete_again, Hd by done. reflexivity.
  - by apply Complete_completed_output.
  - rewrite Complete_done, Hd. reflexivity.
Qed.

End StepperFacts.

(* ===================================================================== *)
(** * Properties of package cfg                                           *)
(* ===================================================================== *)

Import Cfg.

(** Unfolding of the monad's combinators. *)
Ltac run :=
  unfold readFromFile, flushUnsafeLocked, Set_, Finish, GetAll, OpenFile,
    StatSize, Close_, Decode, Encode, sys, orelse, store_data, store_file,
    self, inspect, throw, panic, mbind, M_bind, mret, M_ret, bind, ret, wrap
    in *;
  cbn [data file path fst snd] in *.

Section CfgFacts.

Variable gob : Gob.

(** ** The flush *)

(** A flush never changes the receiver and never panics. *)
Lemma flush_config (env : Env) (c : Config) (w : World) :
  (flushUnsafeLocked gob env c w).1.1 = c /\
  forall msg, (flushUnsafeLocked gob env c w).2 <> Panic msg.
Proof.
  run. destruct (file c) as [f|]; [|done].
  destruct (fails env SysTruncate); [done|].
  destruct (fails env SysSeek); [done|].
  destruct (gobEncode gob (data c)) as [bs [e|]];
    destruct (fails env SysWrite); try done;
    by destruct (fails env SysSync).
Qed.

(** On a closed store it fails before any system call. *)
Lemma flush_closed (env : Env) (c : Config) (w : World) :
  file c = None ->
  flushUnsafeLocked gob env c w =
    (c, w, Err (errorString "config file not available")).
Proof. run. by intros ->. Qed.

(** A flush that succeeds leaves in the file the bytes of the map, and
    the encoder reported no error. *)
Lemma flush_ok (env : Env) (c c' : Config) (w w' : World) :
  flushUnsafeLocked gob env c w = (c', w', Ok tt) ->
  exists f, file c = Some f /\
    gobEncode gob (data c) = (content w' f, None) /\
    is_Some (files w' !! f).
Proof.
  run. destruct (file c) as [f|]; [|done].
  destruct (fails env SysTruncate); [done|].
  destruct (fails env SysSeek); [done|].
  destruct (gobEncode gob (data c)) as [bs [e|]];
    destruct (fails env SysWrite); try done.
  destruct (fails env SysSync); [done|].
  intros [= <- <-]. exists f. unfold content, set_content, record_call.
  cbn. rewrite lookup_insert_eq. eauto.
Qed.

(** ** Set *)

(** In the [default] case of the type switch nothing is touched. *)
Lemma Set_default (env : Env) (c : Config) (w : World) (k : string) (v : value) :
  normalize v = None ->
  Set_ gob k v env c w = (c, w, Err (unsupportedType (typeName v))).
Proof. unfold Set_. by intros ->. Qed.

(** Otherwise the normalized value is stored, then the map is flushed. *)
Lemma Set_stores (env : Env) (c : Config) (w : World) (k : string)
    (v nv : value) (m : gmap string value) :
  normalize v = Some nv -> data c = Some m ->
  Set_ gob k v env c w =
    flushUnsafeLocked gob env
      (mkConfig (Some (<[k := nv]> m)) (file c) (path c)) w.
Proof. unfold Set_. intros -> Hm. run. by rewrite Hm. Qed.

Lemma Set_nil_map (env : Env) (c : Config) (w : World) (k : string)
    (v nv : value) :
  normalize v = Some nv -> data c = None ->
  Set_ gob k v env c w = (c, w, Panic "assignment to entry in nil map").
Proof. unfold Set_. intros -> Hm. run. by rewrite Hm. Qed.

(** The receiver after a [Set] that stored its value. *)
Lemma Set_receiver (env : Env) (c : Config) (w : World) (k : string)
    (v nv : value) (m : gmap string value) :
  normalize v = Some nv -> data c = Some m ->
  (Set_ gob k v env c w).1.1 =
    mkConfig (Some (<[k := nv]> m)) (file c) (path c).
Proof.
  intros Hv Hm. rewrite (Set_stores _ _ _ _ _ _ _ Hv Hm).
  apply flush_config.
Qed.

(** A [Set] that returns (an error or not) without rejecting the value
    has stored it. *)
Lemma Set_returned (env : Env) (c c' : Config) (w w' : World) (k : string)
    (v nv : value) (r : result unit) :
  normalize v = Some nv ->
  Set_ gob k v env c w = (c', w', r) ->
  (forall msg, r <> Panic msg) ->
  exists m, data c = Some m /\
    c' = mkConfig (Some (<[k := nv]> m)) (file c) (path c).
Proof.
  intros Hv Hs Hr. destruct (data c) as [m|] eqn:Hm.
  - exists m. split; [done|].
    rewrite <- (Set_receiver env c w k v nv m Hv Hm). by rewrite Hs.
  - rewrite (Set_nil_map _ _ _ _ _ _ Hv Hm) in Hs.
    injection Hs as <- <- <-. by destruct (Hr "assignment to entry in nil map").
Qed.

Lemma index_stored (m : gmap string value) (f : option string) (p k : string)
    (nv : value) :
  index (data (mkConfig (Some (<[k := nv]> m)) f p)) k = Some nv.
Proof. cbn. apply lookup_insert_eq. Qed.

(** The type switch yields a string, a boolean or a [float64]. *)
Lemma normalize_shape (v nv : value) :
  normalize v = Some nv ->
  (exists s, nv = VString s) \/ (exists f, nv = VFloat64 f) \/
  (exists b, nv = VBool b).
Proof.
  destruct v as [[] n|f|f|s|b|T]; intros [= <-]; eauto.
Qed.

(** C3 (amended). On a store whose map is not nil, [Set] stores an [int],
    [int32] or [int64] as the [float64] nearest to it and a [float32] as
    the same number in [float64]; a string, a boolean and a [float64] are
    stored as they are; every other value, the other integer types
    ([int8], [int16], the unsigned ones) included, is rejected with the
    unsupported-type error and nothing is touched. *)
Theorem Set_normalizes (env : Env) (c : Config) (w : World) (k : string)
    (v : value) (m : gmap string value) (Hm : data c = Some m) :
  let stored nv :=
    data (Set_ gob k v env c w).1.1 = Some (<[k := nv]> m) in
  match v with
  | VInteger Int n | VInteger Int32 n | VInteger Int64 n =>
      stored (VFloat64 (float64_of_Z n))
  | VFloat32 f => stored (VFloat64 (float64_of_float32 f))
  | VString _ | VBool _ | VFloat64 _ => stored v
  | _ => Set_ gob k v env c w = (c, w, Err (unsupportedType (typeName v)))
  end.
Proof.
  intros stored. unfold stored.
  destruct v as [[] n|f|f|s|b|T];
    first [ by apply Set_default
          | by erewrite Set_receiver by (reflexivity || exact Hm) ].
Qed.

(** C4. After a [Set] that succeeded, the getter of the stored value's
    type finds the normalized value under the key. *)
Theorem Set_then_Get (env : Env) (c c' : Config) (w w' : World) (k : string)
    (v : value) (Hs : Set_ gob k v env c w = (c', w', Ok tt)) :
  match normalize v with
  | Some (VString s) => GetString c' k = (s, true)
  | Some (VFloat64 f) => GetFloat64 c' k = (f, true)
  | Some (VBool b) => GetBool c' k = (b, true)
  | _ => False
  end.
Proof.
  destruct (normalize v) as [nv|] eqn:Hv.
  - destruct (Set_returned _ _ _ _ _ _ _ _ _ Hv Hs) as (m & _ & ->); [done|].
    destruct (normalize_shape _ _ Hv) as [[s ->]|[[f ->]|[b ->]]];
      unfold GetString, GetFloat64, GetBool; by rewrite index_stored.
  - by rewrite (Set_default _ _ _ _ _ Hv) in Hs.
Qed.

(** C5. A value that the type switch does not list is rejected with the
    unsupported-type error: the receiver and the world, its trace of
    system calls included, are what they were, so every key reads as
    before and nothing was flushed. *)
Theorem Set_unsupported_rejected (env : Env) (c : Config) (w : World)
    (k : string) (v : value) (Hv : normalize v = None) :
  Set_ gob k v env c w = (c, w, Err (unsupportedType (typeName v))) /\
  forall k', index (data (Set_ gob k v env c w).1.1) k' = index (data c) k'.
Proof. by rewrite (Set_default env c w k v Hv). Qed.

(** C6. When [Set] returns an error for a value it accepts, the error is
    that of the flush, and the map in memory holds the normalized value
    under the key all the same. *)
Theorem Set_keeps_value_when_flush_fails (env : Env) (c c' : Config)
    (w w' : World) (k : string) (v nv : value) (e : error)
    (Hv : normalize v = Some nv)
    (Hs : Set_ gob k v env c w = (c', w', Err e)) :
  index (data c') k = Some nv /\
  flushUnsafeLocked gob env c' w = (c', w', Err e).
Proof.
  destruct (Set_returned _ _ _ _ _ _ _ _ _ Hv Hs) as (m & Hm & ->); [done|].
  split; [apply index_stored|].
  by rewrite <- (Set_stores env c w k v nv m Hv Hm).
Qed.

(** ** The getters *)

(** C7. A getter that does not find a value of its type under the key,
    the key being absent or bound to a value of another type, answers
    with the zero value of its type and [false]; its result has no error
    component, and is the same in both cases. *)
Theorem getters_miss (c : Config) (key : string) :
  ((forall s, index (data c) key <> Some (VString s)) ->
   GetString c key = (EmptyString, false)) /\
  ((forall f, index (data c) key <> Some (VFloat64 f)) ->
   GetFloat64 c key = (S754_zero false, false)) /\
  ((forall b, index (data c) key <> Some (VBool b)) ->
   GetBool c key = (false, false)).
Proof.
  unfold GetString, GetFloat64, GetBool.
  destruct (index (data c) key) as [[]|]; split_and!; intros H;
    try done; by edestruct H.
Qed.

(** [float_trunc] is truncation toward zero. *)
Lemma float_trunc_spec (f : spec_float) (z : Z) :
  float_trunc f = Some z <-> truncated_toward_zero f z.
Proof.
  destruct f as [s|s| |s m e]; cbn; try (split; [by intros [=]|done]).
  - split; [by intros [= <-] | by intros ->].
  - assert (Hz : cond_Zopp s (Z.shiftl (Z.pos m) e) =
      (cond_Zopp s (Z.pos m) * 2 ^ Z.max e 0) ÷ 2 ^ Z.max (- e) 0).
    { destruct (Z.le_gt_cases 0 e) as [He|He].
      - rewrite Z.max_l, Z.max_r by lia. cbn [Z.pow]. rewrite Z.quot_1_r.
        rewrite Z.shiftl_mul_pow2 by done. destruct s; cbn [cond_Zopp]; lia.
      - rewrite Z.max_r, Z.max_l by lia. cbn [Z.pow]. rewrite Z.mul_1_r.
        rewrite Z.shiftl_div_pow2 by lia.
        assert (0 < 2 ^ (- e)) by (apply Z.pow_pos_nonneg; lia).
        destruct s; cbn [cond_Zopp].
        + rewrite Z.quot_opp_l by lia. f_equal.
          rewrite Z.quot_div_nonneg; lia.
        + rewrite Z.quot_div_nonneg; lia. }
    rewrite Hz. split; [by intros [= <-] | by intros ->].
Qed.

(** C10 (amended). When the key holds a [float64], [GetInt] always
    answers [true]; and when the number is finite and its truncation
    toward zero fits in an [int], the value is that truncation, whether
    the number is whole or not. *)
Theorem GetInt_of_number (arch : Arch) (c : Config) (k : string)
    (f : spec_float) (Hk : index (data c) k = Some (VFloat64 f)) :
  snd (GetInt arch c k) = true /\
  forall z, truncated_toward_zero f z -> fits_int arch z = true ->
            GetInt arch c k = (z, true).
Proof.
  unfold GetInt. rewrite Hk. split; [done|]. intros z Hz Hfit.
  apply float_trunc_spec in Hz. unfold int_of_float64. by rewrite Hz, Hfit.
Qed.

(** ** Finish *)

Lemma Finish_closed (env : Env) (c : Config) (w : World) :
  file c = None ->
  Finish gob env c w =
    (c, w, Err (errorString "config file already closed")).
Proof. run. by intros ->. Qed.

(** A [Finish] that succeeds has flushed the map to the file of the
    handle and dropped the handle. *)
Lemma Finish_ok (env : Env) (c c' : Config) (w w' : World) :
  Finish gob env c w = (c', w', Ok tt) ->
  exists f, file c = Some f /\
    c' = mkConfig (data c) None (path c) /\
    gobEncode gob (data c) = (content w' f, None) /\
    is_Some (files w' !! f).
Proof.
  intros H. unfold Finish in H. unfold mbind, M_bind, bind, self at 1 in H.
  destruct (file c) as [f|] eqn:Hf; [|done].
  unfold mbind, M_bind, bind, orelse in H.
  destruct (flushUnsafeLocked gob env c w) as [[c1 w1] [[]| |]] eqn:Hfl;
    try done.
  pose proof (flush_config env c w) as [Hc _]. rewrite Hfl in Hc.
  cbn in Hc. subst c1.
  destruct (flush_ok _ _ _ _ _ Hfl) as (f' & Hf' & Henc & Hsome).
  assert (f' = f) as -> by congruence.
  unfold sys, store_file, throw in H.
  destruct (fails env SysClose); [done|].
  injection H as <- <-. by exists f.
Qed.

(** ** readFromFile *)

Lemma content_length_pos (w : World) (p : string) (bs : list byte) :
  files w !! p = Some bs -> bs <> [] ->
  (0 <? length (content w p))%nat = true.
Proof.
  intros Hp Hbs. unfold content. rewrite Hp. by destruct bs.
Qed.

(** Opening an existing file changes no file. *)
Lemma create_existing (w : World) (p : string) (bs : list byte) :
  files w !! p = Some bs -> create_if_missing p w = w.
Proof. unfold create_if_missing. by intros ->. Qed.

(** On a file that is not empty, an error of the decoder other than
    [io.EOF] is returned, wrapped, and the receiver is left as it was. *)
Lemma readFromFile_decode_error (env : Env) (c : Config) (w : World)
    (bs : list byte) (d : option (gmap string value)) (e : error) :
  files w !! path c = Some bs -> bs <> [] ->
  fails env SysOpen = false -> fails env SysStat = false ->
  fails env SysRead = false ->
  gobDecode gob bs = (d, Some e) -> is_EOF e = false ->
  exists w',
    readFromFile gob env c w =
      (c, w', Err (wrap "unable to decode config file as JSON" e)) /\
    files w' = files w.
Proof.
  intros Hp Hbs Ho Hs Hr Hd He. run. rewrite Ho, Hs.
  rewrite (create_existing (record_call SysOpen (path c) w) (path c) bs Hp).
  unfold content, id. cbn. rewrite Hp. cbn.
  destruct bs as [|b bs']; [done|]. cbn. rewrite Hr. cbn. rewrite Hp. cbn.
  rewrite Hd. cbn. rewrite He. cbn.
  destruct (fails env SysClose); cbn; by eexists.
Qed.

(** On a file that is not empty, what the decoder leaves in [data] is
    taken when it returns no error, and also when it returns [io.EOF]. *)
Lemma readFromFile_decoded (env : Env) (c : Config) (w : World)
    (bs : list byte) (d : option (gmap string value)) (err : option error) :
  files w !! path c = Some bs -> bs <> [] ->
  fails env SysOpen = false -> fails env SysStat = false ->
  fails env SysRead = false -> fails env SysSeek = false ->
  gobDecode gob bs = (d, err) ->
  match err with Some e => is_EOF e = true | None => True end ->
  exists w',
    readFromFile gob env c w =
      (mkConfig d (Some (path c)) (path c), w', Ok tt) /\
    files w' = files w.
Proof.
  intros Hp Hbs Ho Hs Hr Hk Hd He. run. rewrite Ho, Hs.
  rewrite (create_existing (record_call SysOpen (path c) w) (path c) bs Hp).
  unfold content, id. cbn. rewrite Hp. cbn.
  destruct bs as [|b bs']; [done|]. cbn. rewrite Hr. cbn. rewrite Hp. cbn.
  rewrite Hd. cbn. destruct err as [e|]; [rewrite He|]; cbn;
    rewrite Hk; cbn; by eexists.
Qed.

(** On a missing or empty file the map starts empty. *)
Lemma readFromFile_empty (env : Env) (c : Config) (w : World) :
  content w (path c) = [] ->
  fails env SysOpen = false -> fails env SysStat = false ->
  fails env SysSeek = false ->
  exists w',
    readFromFile gob env c w =
      (mkConfig (Some ∅) (Some (path c)) (path c), w', Ok tt) /\
    files w' = files (create_if_missing (path c) w).
Proof.
  intros Hp Ho Hs Hk. run. rewrite Ho, Hs.
  assert (Hc : content (create_if_missing (path c)
                          (record_call SysOpen (path c) w)) (path c) = []).
  { revert Hp. unfold content, create_if_missing. cbn.
    destruct (files w !! path c) eqn:E; cbn; [by rewrite E|].
    by rewrite lookup_insert_eq. }
  unfold id. cbn. unfold content in *. cbn in Hc |- *. rewrite Hc. cbn.
  rewrite Hk. cbn. eexists. split; [done|].
  unfold create_if_missing. cbn. by destruct (files w !! path c).
Qed.


Lemma trace_create (p : string) (w : World) :
  trace (create_if_missing p w) = trace w.
Proof. unfold create_if_missing. by destruct (files w !! p). Qed.

(** Whenever [readFromFile] succeeds the receiver holds a handle on its
    path, and an open call was made. *)
Lemma readFromFile_ok_file (env : Env) (c c' : Config) (w w' : World) :
  readFromFile gob env c w = (c', w', Ok tt) ->
  file c' = Some (path c) /\ path c' = path c /\
  (SysOpen, path c) ∈ trace w'.
Proof.
  intros H. run. unfold id in H.
  destruct (fails env SysOpen); [done|]. cbn in H.
  destruct (fails env SysStat); cbn in H;
    [by destruct (fails env SysClose)|].
  destruct (length _); cbn in H.
  - destruct (fails env SysSeek); cbn in H;
      [by destruct (fails env SysClose)|].
    injection H as <- <-. cbn. split_and!; [done..|].
      rewrite ?trace_create; cbn; repeat constructor.
  - destruct (fails env SysRead); cbn in H;
      [by destruct (fails env SysClose)|].
    destruct (gobDecode gob _) as [d [e|]]; cbn in H.
    + destruct (is_EOF e); cbn in H; [|by destruct (fails env SysClose)].
      destruct (fails env SysSeek); cbn in H;
        [by destruct (fails env SysClose)|].
      injection H as <- <-. cbn. split_and!; [done..|].
      rewrite ?trace_create; cbn; repeat constructor.
    + destruct (fails env SysSeek); cbn in H;
        [by destruct (fails env SysClose)|].
      injection H as <- <-. cbn. split_and!; [done..|].
      rewrite ?trace_create; cbn; repeat constructor.
Qed.

(** ** GetAll *)

(** A [GetAll] that succeeds has opened the file again and left the new
    handle in the receiver. *)
Lemma GetAll_ok (env : Env) (c c' : Config) (w w' : World)
    (m : gmap string value) :
  GetAll gob env c w = (c', w', Ok m) ->
  readFromFile gob env c w = (c', w', Ok tt) /\ m = default ∅ (data c').
Proof.
  unfold GetAll, mbind, M_bind, bind, self, mret, M_ret, ret.
  destruct (readFromFile gob env c w) as [[c1 w1] [[]|e|msg]]; [|done..].
  by intros [= <- <- <-].
Qed.

(** ** New *)

Lemma New_unfold (p : string) (env : Env) (w : World) (c : Config)
    (w' : World) (r : result unit) :
  readFromFile gob env (mkConfig None None p) w = (c, w', r) ->
  New gob p env w =
    (w', match r with
         | Ok _ => Ok c
         | Err e => Err e
         | Panic msg => Panic msg
         end).
Proof. unfold New. intros ->. by destruct r. Qed.

(** X22. Opening a file that is not empty, when open, stat and read do
    not fail: if the decoder returns an error other than [io.EOF], [New]
    returns it wrapped as the decode error, builds no store and changes
    no file. *)
Theorem New_rejects_decode_error (env : Env) (w : World) (p : string)
    (bs : list byte) (d : option (gmap string value)) (e : error)
    (Hp : files w !! p = Some bs) (Hbs : bs <> [])
    (Ho : fails env SysOpen = false) (Hs : fails env SysStat = false)
    (Hr : fails env SysRead = false)
    (Hd : gobDecode gob bs = (d, Some e)) (He : is_EOF e = false) :
  exists w',
    New gob p env w =
      (w', Err (wrap "unable to decode config file as JSON" e)) /\
    files w' = files w.
Proof.
  destruct (readFromFile_decode_error env (mkConfig None None p) w bs d e)
    as (w' & Hread & Hfiles); try done.
  exists w'. by rewrite (New_unfold _ _ _ _ _ _ Hread).
Qed.

(** C1 (amended). After a [Finish] that succeeded the handle is nil, and
    - a [Set] of an accepted value returns the error of the flush,
      "config file not available", makes no system call and changes no
      file, but binds the key to the normalized value in memory;
    - a second [Finish] returns "config file already closed" and makes no
      system call;
    - a [GetAll] that succeeds has opened the file again: the store
      holds a handle on its path once more. *)
Theorem closed_store (env : Env) (c c1 : Config) (w w1 : World)
    (Hf : Finish gob env c w = (c1, w1, Ok tt)) :
  file c1 = None /\
  (forall env' k v nv m,
     normalize v = Some nv -> data c1 = Some m ->
     Set_ gob k v env' c1 w1 =
       (mkConfig (Some (<[k := nv]> m)) None (path c1), w1,
        Err (errorString "config file not available"))) /\
  (forall env',
     Finish gob env' c1 w1 =
       (c1, w1, Err (errorString "config file already closed"))) /\
  (forall env' c2 w2 m,
     GetAll gob env' c1 w1 = (c2, w2, Ok m) ->
     file c2 = Some (path c1) /\ (SysOpen, path c1) ∈ trace w2).
Proof.
  destruct (Finish_ok _ _ _ _ _ Hf) as (f & _ & -> & _). cbn [file path data].
  split_and!; [done|..].
  - intros env' k v nv m Hv Hm.
    rewrite (Set_stores env' (mkConfig (data c) None (path c)) w1 k v nv m
               Hv Hm). by apply flush_closed.
  - intros env'. by apply Finish_closed.
  - intros env' c2 w2 m Hg. apply GetAll_ok in Hg as [Hread _].
    destruct (readFromFile_ok_file _ _ _ _ _ Hread) as (H1 & _ & H2).
    by split.
Qed.

(** C8. A store whose handle is on its own path; a [Set] that succeeds,
    then a [Finish] that succeeds. If the decoder gives back, from the
    bytes that the encoder emits for the map, that map (and those bytes
    are not empty), then [New] on the same path, when its system calls do
    not fail, returns a store with the same map, in which the getter of
    the stored value's type finds the normalized value under the key. *)
Theorem Set_Finish_New (env1 env2 env3 : Env) (c c1 c2 : Config)
    (w w1 w2 : World) (k : string) (v : value)
    (Hfile : file c = Some (path c))
    (Hs : Set_ gob k v env1 c w = (c1, w1, Ok tt))
    (Hf : Finish gob env2 c1 w1 = (c2, w2, Ok tt))
    (Hrt : forall bs, gobEncode gob (data c1) = (bs, None) ->
                      bs <> [] /\ gobDecode gob bs = (data c1, None))
    (Ho : fails env3 SysOpen = false) (Hst : fails env3 SysStat = false)
    (Hr : fails env3 SysRead = false) (Hk : fails env3 SysSeek = false) :
  exists c3 w3,
    New gob (path c) env3 w2 = (w3, Ok c3) /\
    data c3 = data c1 /\
    match normalize v with
    | Some (VString s) => GetString c3 k = (s, true)
    | Some (VFloat64 f) => GetFloat64 c3 k = (f, true)
    | Some (VBool b) => GetBool c3 k = (b, true)
    | _ => False
    end.
Proof.
  destruct (normalize v) as [nv|] eqn:Hv;
    [|by rewrite (Set_default _ _ _ _ _ Hv) in Hs].
  destruct (Set_returned _ _ _ _ _ _ _ _ _ Hv Hs) as (m & Hm & Hc1); [done|].
  destruct (Finish_ok _ _ _ _ _ Hf) as (f & Hf1 & _ & Henc & [bs Hbs]).
  assert (f = path c) as -> by (rewrite Hc1 in Hf1; cbn in Hf1; congruence).
  assert (Hcont : content w2 (path c) = bs) by (unfold content; by rewrite Hbs).
  rewrite Hcont in Henc. destruct (Hrt bs Henc) as [Hne Hdec].
  destruct (readFromFile_decoded env3 (mkConfig None None (path c)) w2 bs
              (data c1) None) as (w3 & Hread & _); try done.
  exists (mkConfig (data c1) (Some (path c)) (path c)), w3.
  split; [by rewrite (New_unfold _ _ _ _ _ _ Hread)|]. split; [done|].
  rewrite Hc1.
  destruct (normalize_shape _ _ Hv) as [[s ->]|[[x ->]|[b ->]]];
    unfold GetString, GetFloat64, GetBool, index; cbn [data];
    by rewrite lookup_insert_eq.
Qed.

End CfgFacts.

(* ===================================================================== *)
(** * The store at work                                                   *)
(* ===================================================================== *)

Section Runs.
Import Wire.

(** [New] on a path that does not exist creates the file and returns the
    store [c0] in the world [w0]. *)
Lemma New_fresh : New codec path0 calm nothing = (w0, Ok c0).
Proof. vm_compute. reflexivity. Qed.

(** C3, as stated, fails: an [int8] and an [int16] are not converted but
    rejected, and the key stays unbound. *)
Lemma Set_int8_int16_rejected :
  Set_ codec "k" (VInteger Int8 5) calm c0 w0
    = (c0, w0, Err (unsupportedType "int8")) /\
  Set_ codec "k" (VInteger Int16 5) calm c0 w0
    = (c0, w0, Err (unsupportedType "int16")) /\
  GetFloat64 (Set_ codec "k" (VInteger Int8 5) calm c0 w0).1.1 "k"
    = (S754_zero false, false).
Proof. split_and!; vm_compute; reflexivity. Qed.

(** C3 at work: [Set("n", 42)] stores 42.0. *)
Lemma Set_normalizes_witness :
  data c0 = Some ∅ /\
  data (Set_ codec "n" (VInteger Int 42) calm c0 w0).1.1 =
    Some (<["n" := VFloat64 (S754_finite false 5910974510923776 (-47))]> ∅).
Proof.
  split; [reflexivity|].
  exact (Set_normalizes codec calm c0 w0 "n" (VInteger Int 42) ∅ eq_refl).
Defined.

(** C4 at work: scenario 2 of the specification. *)
Lemma Set_then_Get_witness :
  let r := Set_ codec "key" (VString "value") calm c0 w0 in
  r = (r.1.1, r.1.2, Ok tt) /\ GetString r.1.1 "key" = ("value", true).
Proof.
  intros r.
  assert (H : r = (r.1.1, r.1.2, Ok tt)) by (vm_compute; reflexivity).
  split; [exact H|].
  exact (Set_then_Get codec calm c0 r.1.1 w0 r.1.2 "key" (VString "value") H).
Defined.

(** C5 at work: the struct of the package's test. *)
Lemma Set_unsupported_rejected_witness :
  normalize (VOther "cfg.custom") = None /\
  Set_ codec "custom_key" (VOther "cfg.custom") calm c0 w0 =
    (c0, w0, Err (unsupportedType "cfg.custom")).
Proof.
  split; [reflexivity|].
  exact (proj1 (Set_unsupported_rejected codec calm c0 w0 "custom_key"
                  (VOther "cfg.custom") eq_refl)).
Defined.

(** C6 at work: the sync fails, the value is in memory. *)
Lemma Set_keeps_value_when_flush_fails_witness :
  let r := Set_ codec "key" (VString "value") sync_fails c0 w0 in
  r = (r.1.1, r.1.2, Err (PathError SysSync path0)) /\
  index (data r.1.1) "key" = Some (VString "value").
Proof.
  intros r.
  assert (H : r = (r.1.1, r.1.2, Err (PathError SysSync path0)))
    by (vm_compute; reflexivity).
  split; [exact H|].
  exact (proj1 (Set_keeps_value_when_flush_fails codec sync_fails c0 r.1.1
                  w0 r.1.2 "key" (VString "value") (VString "value")
                  (PathError SysSync path0) eq_refl H)).
Defined.

(** C7 at work: on a store where ["s"] is a string and ["absent"] is
    not bound, the number getter misses both in the same way, and so do
    the others. *)
Lemma getters_miss_witness :
  let c := (Set_ codec "s" (VString "x") calm c0 w0).1.1 in
  GetString c "s" = ("x", true) /\
  GetFloat64 c "s" = GetFloat64 c "absent" /\
  GetFloat64 c "s" = (S754_zero false, false) /\
  GetBool c "s" = (false, false) /\
  GetString c "absent" = (EmptyString, false).
Proof.
  intros c.
  destruct (getters_miss c "s") as (_ & Hf & Hb).
  destruct (getters_miss c "absent") as (Hs' & Hf' & _).
  assert (Hfs : GetFloat64 c "s" = (S754_zero false, false))
    by (apply Hf; intros f; vm_compute; discriminate).
  split_and!.
  - vm_compute; reflexivity.
  - rewrite Hfs. symmetry. apply Hf'. intros f; vm_compute; discriminate.
  - exact Hfs.
  - apply Hb. intros b; vm_compute; discriminate.
  - apply Hs'. intros x; vm_compute; discriminate.
Defined.

(** C10 at work: after [Set("k", 3.9)], [GetInt("k")] is [(3, true)]. *)
Lemma GetInt_of_number_witness :
  let c := (Set_ codec "k" (VFloat64 f3_9) calm c0 w0).1.1 in
  index (data c) "k" = Some (VFloat64 f3_9) /\
  GetInt amd64 c "k" = (3, true).
Proof.
  intros c.
  assert (H : index (data c) "k" = Some (VFloat64 f3_9))
    by (vm_compute; reflexivity).
  split; [exact H|].
  apply (proj2 (GetInt_of_number amd64 c "k" f3_9 H) 3);
    vm_compute; reflexivity.
Defined.

(** C10, as stated, fails: [2^100] is a number, its truncation toward
    zero is [2^100], and [GetInt] answers another integer. *)
Lemma GetInt_out_of_range :
  let c := (Set_ codec "k" (VFloat64 f2_100) calm c0 w0).1.1 in
  GetFloat64 c "k" = (f2_100, true) /\
  truncated_toward_zero f2_100 (2 ^ 100) /\
  GetInt amd64 c "k" = (- 2 ^ 63, true) /\
  fst (GetInt amd64 c "k") <> 2 ^ 100.
Proof.
  split_and!; try (vm_compute; reflexivity). vm_compute. discriminate.
Qed.

(** X22 at work: the file of the package's test is not a stream. *)
Lemma New_rejects_decode_error_witness :
  files garbage !! path0 = Some (String.list_byte_of_string "not a valid gob") /\
  exists w',
    New codec path0 calm garbage =
      (w', Err (wrap "unable to decode config file as JSON" unexpectedEOF)) /\
    files w' = files garbage.
Proof.
  assert (Hp : files garbage !! path0 =
               Some (String.list_byte_of_string "not a valid gob"))
    by (vm_compute; reflexivity).
  split; [exact Hp|].
  refine (New_rejects_decode_error codec calm garbage path0 _ None
            unexpectedEOF Hp _ eq_refl eq_refl eq_refl _ eq_refl).
  - discriminate.
  - vm_compute; reflexivity.
Defined.

(** C2 (the code at the failing input). A file that holds one message of
    length zero is not empty and is no serialized map; the decoder ends
    with [io.EOF], which [readFromFile] lets through, and [New] returns
    no error but a store, whose map is nil. *)
Lemma New_on_zero_message :
  content zero_message path0 = [x00] /\
  gobDecode codec [x00] = (None, Some EOF) /\
  exists w',
    New codec path0 calm zero_message =
      (w', Ok (mkConfig None (Some path0) path0)).
Proof.
  split_and!; [vm_compute; reflexivity..|].
  eexists. vm_compute. reflexivity.
Qed.

(** C1 at work: [Finish] twice, as in the package's test. *)
Lemma closed_store_witness :
  let r := Finish codec calm c0 w0 in
  r = (r.1.1, r.1.2, Ok tt) /\
  Finish codec calm r.1.1 r.1.2 =
    (r.1.1, r.1.2, Err (errorString "config file already closed")).
Proof.
  intros r.
  assert (H : r = (r.1.1, r.1.2, Ok tt)) by (vm_compute; reflexivity).
  split; [exact H|].
  exact (proj1 (proj2 (proj2 (closed_store codec calm c0 r.1.1 w0 r.1.2 H)))
           calm).
Defined.

(** C1, as stated, fails: on the store closed by a [Finish] that
    succeeded, [Set] returns an error and yet binds the key in memory,
    and [GetAll] succeeds and leaves a handle in the store. *)
Lemma closed_store_still_changes :
  let r := Finish codec calm c0 w0 in
  let s := Set_ codec "k" (VString "v") calm r.1.1 r.1.2 in
  let g := GetAll codec calm r.1.1 r.1.2 in
  r.2 = Ok tt /\ file r.1.1 = None /\
  index (data r.1.1) "k" = None /\
  s.2 = Err (errorString "config file not available") /\
  index (data s.1.1) "k" = Some (VString "v") /\
  g.2 = Ok ∅ /\
  file g.1.1 = Some path0.
Proof. split_and!; vm_compute; reflexivity. Qed.

(** C8 at work: scenario 5 of the specification. *)
Lemma Set_Finish_New_witness :
  let r1 := Set_ codec "foo" (VString "bar") calm c0 w0 in
  let r2 := Finish codec calm r1.1.1 r1.1.2 in
  r1.2 = Ok tt /\ r2.2 = Ok tt /\
  exists c3 w3,
    New codec path0 calm r2.1.2 = (w3, Ok c3) /\
    GetString c3 "foo" = ("bar", true).
Proof.
  intros r1 r2.
  assert (H1 : r1 = (r1.1.1, r1.1.2, Ok tt)) by (vm_compute; reflexivity).
  assert (H2 : r2 = (r2.1.1, r2.1.2, Ok tt)) by (vm_compute; reflexivity).
  split; [vm_compute; reflexivity|]. split; [vm_compute; reflexivity|].
  destruct (Set_Finish_New codec calm calm calm c0 r1.1.1 r2.1.1 w0 r1.1.2
              r2.1.2 "foo" (VString "bar") eq_refl H1 H2)
    as (c3 & w3 & HN & _ & HG); try reflexivity.
  - intros bs Hbs. vm_compute in Hbs. injection Hbs as <-.
    split; [discriminate | vm_compute; reflexivity].
  - exists c3, w3. split; [exact HN | exact HG].
Defined.

End Runs.

(* ===================================================================== *)
(** * More on package stepper                                             *)
(* ===================================================================== *)

Section StepperHistory.
Import Stepper.

Variable Quote : string -> string.

(** Redraws before the completion change the output and the spinner
    only. *)
Lemma ticks_state (n : nat) (out nm : string) :
  let s := Nat.iter n tick (New out nm) in
  name s = nm /\ spinner s = n /\ running s = true /\ done s = 0 /\
  onceComplete s = false.
Proof.
  induction n as [|n IH]; [done|].
  change (Nat.iter (S n) tick (New out nm))
    with (tick (Nat.iter n tick (New out nm))).
  set (s := Nat.iter n tick (New out nm)) in *.
  destruct IH as (Hn & Hs & Hr & Hd & Ho). cbv zeta.
  assert (Ht : tick s = mkStep (name s)
      (output s ++ CR ++ spinner_Next (spinner s) ++ " " ++ name s)%string
      (S (spinner s)) true (done s) (onceComplete s))
    by (unfold tick; by rewrite Hr).
  rewrite Ht. cbn. by rewrite Hs.
Qed.

(** A completed step whose goroutine has returned stays so, and its
    output and name stay what they are. *)
Lemma after_completed (s : Step) (ev : event) :
  onceComplete s = true -> running s = false ->
  onceComplete (after Quote s ev) = true /\
  running (after Quote s ev) = false /\
  output (after Quote s ev) = output s.
Proof.
  intros Ho Hr. destruct ev as [|err]; cbn.
  - unfold tick. by rewrite Hr.
  - unfold Complete. by rewrite Ho.
Qed.

Lemma history_completed (evs : list event) (s : Step) :
  onceComplete s = true -> running s = false ->
  output (history Quote evs s) = output s.
Proof.
  revert s. induction evs as [|ev evs IH]; intros s Ho Hr; [done|].
  cbn. destruct (after_completed s ev Ho Hr) as (Ho' & Hr' & Hout).
  unfold history in IH. by rewrite IH.
Qed.

Lemma after_name (s : Step) (ev : event) : name (after Quote s ev) = name s.
Proof.
  destruct ev as [|err]; cbn.
  - unfold tick. by destruct (running s).
  - unfold Complete. by destruct (onceComplete s).
Qed.

(** X1. The first [Complete] on a step made by [New], however many times
    the goroutine has redrawn the spinner before: the call returns the
    error it was given (nil for nil), the final line for that error is
    appended to the output, and the counter is 1. *)
Theorem Complete_first_time (n : nat) (out nm : string) (err : option error) :
  let s := Nat.iter n tick (New out nm) in
  Complete Quote s err =
    (mkStep nm (output s ++ final_line Quote nm err)%string n false 1 true,
     err).
Proof.
  intros s. destruct (ticks_state n out nm) as (Hn & Hs & Hr & Hd & Ho).
  fold s in Hn, Hs, Hr, Hd, Ho. unfold Complete. by rewrite Ho, Hn, Hs, Hd.
Qed.

(** X2. Once a step made by [New] has been completed, nothing that
    follows, redraws of the goroutine or further calls of [Complete] with
    any errors, changes the output: the final line is written once. *)
Theorem output_written_once (n : nat) (out nm : string) (err : option error)
    (evs : list event) :
  let s := fst (Complete Quote (Nat.iter n tick (New out nm)) err) in
  output (history Quote evs s) = output s.
Proof.
  intros s. apply history_completed; unfold s, Complete;
    destruct (ticks_state n out nm) as (_ & _ & _ & _ & ->); reflexivity.
Qed.

(** X3. A second call of [Complete], and every call after it up to the
    [2^32 - 1]th, returns [AlreadyCompletedError] with the step's name,
    whatever error it is given. *)
Theorem Complete_repeated (n : N) (out nm : string) (err : option error)
    (Hn : (1 <= n < 2 ^ 32 - 1)%N) :
  snd (Complete Quote (complete_calls Quote n (New out nm)) err) =
    Some (AlreadyCompletedError nm).
Proof.
  rewrite Complete_again by (apply complete_calls_once; lia).
  rewrite complete_calls_done by (cbn; unfold uint32_max; lia).
  rewrite complete_calls_name. cbn [New done name].
  unfold uint32_incr, uint32_max.
  rewrite Zplus_mod_idemp_l, Z.mod_small by lia.
  destruct (Z.ltb_spec 1 (0 + Z.of_N n + 1)); [done | lia].
Qed.

(** X4. [GetName] answers the name given to [New], whatever happened to
    the step since. *)
Theorem GetName_constant (out nm : string) (evs : list event) :
  GetName (history Quote evs (New out nm)) = nm.
Proof.
  unfold GetName, history.
  assert (H : forall s, name (fold_left (after Quote) evs s) = name s).
  { induction evs as [|ev evs IH]; intros s; [done|].
    cbn. by rewrite IH, after_name. }
  by rewrite H.
Qed.

End StepperHistory.

(** X3 at work: the second call, as in the package's test. *)
Lemma Complete_repeated_witness :
  snd (Stepper.Complete id
         (fst (Stepper.Complete id (Stepper.New EmptyString "Test Step") None))
         None) =
    Some (Stepper.AlreadyCompletedError "Test Step").
Proof.
  apply (Complete_repeated id 1 EmptyString "Test Step" None). lia.
Defined.

(* ===================================================================== *)
(** * More on package cfg                                                 *)
(* ===================================================================== *)

(** Case analysis on everything the environment and the codec decide. *)
Ltac outcomes :=
  repeat match goal with
  | |- context [fails ?e ?o] => destruct (fails e o) eqn:?; cbn
  | |- context [gobEncode ?g ?d] =>
      destruct (gobEncode g d) as [? [?|]] eqn:?; cbn
  | |- context [gobDecode ?g ?b] =>
      destruct (gobDecode g b) as [? [?|]] eqn:?; cbn
  | |- context [is_EOF ?e] => destruct (is_EOF e) eqn:?; cbn
  | |- context [length ?l] => destruct (length l) eqn:?; cbn
  end.

Section CfgMore.

Variable gob : Gob.

Lemma content_create (p q : string) (w : World) :
  content (create_if_missing p w) q = content w q.
Proof.
  unfold content, create_if_missing.
  destruct (files w !! p) eqn:Hp; [done|]. cbn.
  destruct (decide (p = q)) as [->|Hne].
  - by rewrite lookup_insert_eq, Hp.
  - by rewrite lookup_insert_ne.
Qed.

(** ** What a flush does to the world *)

(** The world after a flush that succeeded. *)
Lemma flush_ok_world (env : Env) (c c' : Config) (w w' : World) :
  flushUnsafeLocked gob env c w = (c', w', Ok tt) ->
  exists f bs, file c = Some f /\
    gobEncode gob (data c) = (bs, None) /\
    w' = mkWorld (<[f := bs]> (files w))
           ((SysSync, f) :: (SysWrite, f) :: (SysSeek, f)
              :: (SysTruncate, f) :: trace w).
Proof.
  run. destruct (file c) as [f|]; [|done]. unfold id, set_content. cbn.
  outcomes; try done. intros [= <- <-]. exists f. eexists.
  split_and!; [done..|]. by rewrite insert_insert_eq.
Qed.

(** A flush touches no file but that of the handle. *)
Lemma flush_frame (env : Env) (c : Config) (w : World) (p : string) :
  file c <> Some p ->
  files (flushUnsafeLocked gob env c w).1.2 !! p = files w !! p.
Proof.
  intros Hp. run. destruct (file c) as [f|]; [|done].
  assert (f <> p) by congruence. unfold id, set_content. cbn.
  outcomes; cbn; by rewrite ?lookup_insert_ne.
Qed.

(** A flush that fails leaves all files as they were, or in the file of
    the handle a prefix of what the encoder emits. *)
Lemma flush_failed_content (env : Env) (c c' : Config) (w w' : World)
    (e : error) :
  flushUnsafeLocked gob env c w = (c', w', Err e) ->
  files w' = files w \/
  exists f, file c = Some f /\
    content w' f `prefix_of` (gobEncode gob (data c)).1.
Proof.
  run. destruct (file c) as [f|]; [|by intros [= <- <-]; left].
  unfold id, set_content, content. cbn.
  outcomes; intros [= <- <-]; cbn;
    first [ by left
          | right; exists f; split; [done|];
            rewrite ?lookup_insert_eq; cbn ].
  all: first [apply prefix_nil | apply prefix_take | reflexivity].
Qed.

(** ** What Finish does to the receiver *)
Lemma Finish_result (env : Env) (c : Config) (w : World) :
  let r := Finish gob env c w in
  data r.1.1 = data c /\ path r.1.1 = path c /\
  (forall e, r.2 = Err e -> r.1.1 = c) /\
  (forall msg, r.2 <> Panic msg).
Proof.
  run. destruct (file c) as [f|] eqn:Hf; [|by split_and!].
  pose proof (flush_config gob env c w) as [Hc Hp].
  destruct (flushUnsafeLocked gob env c w) as [[c1 w1] [[]|e|msg]];
    cbn in Hc; subst c1; cbn.
  - unfold id. outcomes; by split_and!.
  - by split_and!.
  - by destruct (Hp msg).
Qed.

(** ** What readFromFile does to the receiver and the world *)

(** It changes the content of no file, never panics, and leaves the
    receiver alone when it fails. *)
Lemma readFromFile_result (env : Env) (c : Config) (w : World) :
  let r := readFromFile gob env c w in
  (forall p, content r.1.2 p = content w p) /\
  (forall msg, r.2 <> Panic msg) /\
  (forall e, r.2 = Err e -> r.1.1 = c).
Proof.
  run. unfold id. cbn. outcomes; split_and!; try done;
    intros p; unfold content; cbn; apply content_create.
Qed.

(** The system calls of a [readFromFile]: when it succeeds, an open and
    no close; when it fails after the open, a close at the end. *)
Lemma readFromFile_trace (env : Env) (c : Config) (w : World) :
  let r := readFromFile gob env c w in
  match r.2 with
  | Ok _ =>
      exists pre, trace r.1.2 = (pre ++ trace w)%list /\
        (SysOpen, path c) ∈ pre /\ forall f, (SysClose, f) ∉ pre
  | Err _ =>
      fails env SysOpen = false ->
      exists t, trace r.1.2 = (SysClose, path c) :: t
  | Panic _ => False
  end.
Proof.
  run. unfold id. cbn. outcomes; rewrite ?trace_create; cbn;
    try done; try (intros _; by eexists).
  all: first
    [ exists [(SysSeek, path c); (SysStat, path c); (SysOpen, path c)];
      split; [reflexivity|]
    | exists [(SysSeek, path c); (SysRead, path c); (SysStat, path c);
              (SysOpen, path c)];
      split; [reflexivity|] ].
  all: split; [repeat constructor|].
  all: intros f Hin;
    repeat (apply elem_of_cons in Hin as [Hin|Hin]; [discriminate Hin|]);
    by apply elem_of_nil in Hin.
Qed.


(** It looks at the receiver's path only. *)
Lemma readFromFile_path_only (env : Env) (c1 c2 : Config) (w : World) :
  path c1 = path c2 ->
  let r1 := readFromFile gob env c1 w in
  let r2 := readFromFile gob env c2 w in
  r1.1.2 = r2.1.2 /\ r1.2 = r2.2 /\
  (forall u, r1.2 = Ok u -> r1.1.1 = r2.1.1).
Proof.
  intros Hp. run. rewrite Hp. unfold id. cbn.
  outcomes; rewrite ?Hp; by split_and!.
Qed.

(** ** Integers through float64 *)

Lemma digits2_pos_size (m : positive) : digits2_pos m = Pos.size m.
Proof. induction m as [m IH|m IH|]; cbn; by rewrite ?IH. Qed.

Lemma digits2_pos_bound (m : positive) :
  Z.pos m < 2 ^ 53 -> Z.pos (digits2_pos m) <= 53.
Proof.
  intros Hm. rewrite digits2_pos_size.
  destruct (Z.le_gt_cases (Z.pos (Pos.size m)) 53) as [|Hgt]; [done|].
  pose proof (Pos.size_le m) as Hle.
  assert (H54 : 2 ^ 54 <= 2 ^ Z.pos (Pos.size m))
    by (apply Z.pow_le_mono_r; lia).
  assert (Hz : 2 ^ Z.pos (Pos.size m) <= 2 * Z.pos m).
  { change (2 * Z.pos m) with (Z.pos m~0).
    rewrite <- Pos2Z.inj_pow. by apply Pos2Z.pos_le_pos. }
  change (2 ^ 54) with (2 * 2 ^ 53) in H54. lia.
Qed.

Lemma iter_xO_spec (m k : positive) :
  Z.pos (Pos.iter xO m k) = Z.pos m * 2 ^ Z.pos k /\
  Z.pos (digits2_pos (Pos.iter xO m k)) = Z.pos (digits2_pos m) + Z.pos k.
Proof.
  induction k as [|k [IH1 IH2]] using Pos.peano_ind.
  - cbn. split; lia.
  - rewrite Pos.iter_succ. cbn [digits2_pos].
    rewrite Pos2Z.inj_succ, Z.pow_succ_r by lia.
    rewrite Pos2Z.inj_succ, IH2, Pos2Z.inj_xO, IH1. split; lia.
Qed.

(** A mantissa of 53 bits with an exponent in range is kept as it is. *)
Lemma binary_round_aux_exact (s : bool) (mz : positive) (ez : Z) :
  Z.pos (digits2_pos mz) = 53 -> -1074 <= ez <= 971 ->
  binary_round_aux 53 1024 s (Z.pos mz) ez loc_Exact = S754_finite s mz ez.
Proof.
  intros Hd He.
  assert (Hs : shr_fexp 53 1024 (Z.pos mz) ez loc_Exact =
               (Build_shr_record (Z.pos mz) false false, ez)).
  { unfold shr_fexp, fexp, emin. cbn [Zdigits2]. rewrite Hd.
    replace (Z.max (53 + ez - 53) (3 - 1024 - 53) - ez) with 0 by lia.
    reflexivity. }
  unfold binary_round_aux. rewrite Hs. cbn [shr_m loc_of_shr_record
    round_nearest_even]. rewrite Hs. cbn [shr_m].
  destruct (Z.leb_spec ez (1024 - 53)); [done|lia].
Qed.

(** An integer below [2^53] in absolute value is a [float64], and its
    integer part is itself. *)
Lemma float_trunc_of_Z (n : Z) :
  - 2 ^ 53 < n < 2 ^ 53 -> float_trunc (float64_of_Z n) = Some n.
Proof.
  intros Hn. unfold float64_of_Z, binary_normalize.
  assert (Hpos : forall s m, Z.pos m < 2 ^ 53 ->
    float_trunc (binary_round 53 1024 s m 0) =
      Some (cond_Zopp s (Z.pos m))).
  { intros s m Hm. pose proof (digits2_pos_bound m Hm) as Hd.
    unfold binary_round, shl_align, fexp, emin.
    replace (Z.max (Z.pos (digits2_pos m) + 0 - 53) (3 - 1024 - 53))
      with (Z.pos (digits2_pos m) - 53) by lia.
    destruct (Z.pos (digits2_pos m) - 53 - 0) as [|k|k] eqn:Hk; [|lia|].
    - rewrite binary_round_aux_exact by lia. cbn. by destruct s.
    - destruct (iter_xO_spec m k) as [Hv Hdk].
      rewrite binary_round_aux_exact by lia. cbn [float_trunc].
      rewrite Z.shiftl_div_pow2 by lia. rewrite Hv.
      replace (- (Z.pos (digits2_pos m) - 53)) with (Z.pos k) by lia.
      rewrite Z.div_mul; [done|]. apply Z.pow_nonzero; lia. }
  destruct n as [|m|m]; [done|..].
  - apply (Hpos false). lia.
  - apply (Hpos true). lia.
Qed.

(** ** Unfoldings *)

Lemma GetAll_unfold (env : Env) (c : Config) (w : World) :
  GetAll gob env c w =
    match readFromFile gob env c w with
    | (c', w', Ok _) => (c', w', Ok (default ∅ (data c')))
    | (c', w', Err e) => (c', w', Err e)
    | (c', w', Panic msg) => (c', w', Panic msg)
    end.
Proof.
  unfold GetAll, mbind, M_bind, bind, self, mret, M_ret, ret.
  by destruct (readFromFile gob env c w) as [[c1 w1] [[]|e|msg]].
Qed.

Lemma New_world (p : string) (env : Env) (w : World) :
  (New gob p env w).1 = (readFromFile gob env (mkConfig None None p) w).1.2.
Proof.
  unfold New.
  by destruct (readFromFile gob env _ w) as [[c1 w1] [[]|e|msg]].
Qed.

(** The files after a [Finish] are those after its flush. *)
Lemma Finish_files (env : Env) (c : Config) (w : World) :
  files (Finish gob env c w).1.2 = files (flushUnsafeLocked gob env c w).1.2.
Proof.
  destruct (file c) as [f|] eqn:Hf.
  - unfold Finish, mbind, M_bind, bind, self, orelse. rewrite Hf.
    destruct (flushUnsafeLocked gob env c w) as [[c1 w1] [[]|e|msg]];
      [|done..].
    unfold sys, throw, store_file. by destruct (fails env SysClose).
  - by rewrite (Finish_closed gob env c w Hf), (flush_closed gob env c w Hf).
Qed.

(** The three ways of a [Set]. *)
Lemma Set_cases (env : Env) (c : Config) (w : World) (k : string) (v : value) :
  Set_ gob k v env c w = (c, w, Err (unsupportedType (typeName v))) \/
  Set_ gob k v env c w = (c, w, Panic "assignment to entry in nil map") \/
  exists nv m, normalize v = Some nv /\ data c = Some m /\
    Set_ gob k v env c w =
      flushUnsafeLocked gob env
        (mkConfig (Some (<[k := nv]> m)) (file c) (path c)) w.
Proof.
  destruct (normalize v) as [nv|] eqn:Hv.
  - destruct (data c) as [m|] eqn:Hm.
    + right; right. exists nv, m. split_and!; [done..|].
      by apply Set_stores.
    + right; left. by eapply Set_nil_map.
  - left. by apply Set_default.
Qed.

(** After a flush that succeeded, reading the path of the handle with a
    decoder that gives the map back yields that map. *)
Lemma read_after_flush (env env' : Env) (c c' cr : Config) (w w' : World)
    (p : string) :
  flushUnsafeLocked gob env c w = (c', w', Ok tt) ->
  file c = Some p -> path cr = p ->
  (forall bs, gobEncode gob (data c) = (bs, None) ->
              bs <> [] /\ gobDecode gob bs = (data c, None)) ->
  fails env' SysOpen = false -> fails env' SysStat = false ->
  fails env' SysRead = false -> fails env' SysSeek = false ->
  exists w'',
    readFromFile gob env' cr w' = (mkConfig (data c) (Some p) p, w'', Ok tt).
Proof.
  intros Hfl Hf Hp Hrt Ho Hs Hr Hk.
  destruct (flush_ok_world _ _ _ _ _ Hfl) as (f & bs & Hf' & Henc & ->).
  assert (f = p) as -> by congruence.
  destruct (Hrt bs Henc) as [Hne Hdec].
  destruct (readFromFile_decoded gob env' cr
              (mkWorld (<[p := bs]> (files w))
                 ((SysSync, p) :: (SysWrite, p) :: (SysSeek, p)
                    :: (SysTruncate, p) :: trace w))
              bs (data c) None) as (w'' & Hread & _); try done.
  { cbn. rewrite Hp. apply lookup_insert_eq. }
  exists w''. by rewrite Hread, Hp.
Qed.

(** ** New *)

(** X5. [New] on a path where there is no file, when open, stat and seek
    do not fail: the file is created, empty; the store has an empty map
    (not a nil one) and a handle on the path. *)
Theorem New_creates (env : Env) (w : World) (p : string)
    (Hp : files w !! p = None)
    (Ho : fails env SysOpen = false) (Hs : fails env SysStat = false)
    (Hk : fails env SysSeek = false) :
  exists w',
    New gob p env w = (w', Ok (mkConfig (Some ∅) (Some p) p)) /\
    files w' = <[p := []]> (files w).
Proof.
  destruct (readFromFile_empty gob env (mkConfig None None p) w)
    as (w' & Hread & Hfiles); try done.
  { unfold content. cbn. by rewrite Hp. }
  exists w'. split; [by rewrite (New_unfold _ _ _ _ _ _ _ Hread)|].
  rewrite Hfiles. unfold create_if_missing. cbn. by rewrite Hp.
Qed.

(** X6. A [New] that returns an error: when the open itself failed, the
    error is that of the open, wrapped, and no other system call was
    made; otherwise the handle was closed before returning. *)
Theorem New_failure (env : Env) (w w' : World) (p : string) (e : error)
    (Herr : New gob p env w = (w', Err e)) :
  if fails env SysOpen then
    w' = record_call SysOpen p w /\
    e = wrap "unable to open config file" (PathError SysOpen p)
  else exists t, trace w' = (SysClose, p) :: t.
Proof.
  destruct (fails env SysOpen) eqn:Ho.
  - revert Herr. unfold New. run. rewrite Ho. by intros [= <- <-].
  - pose proof (readFromFile_trace env (mkConfig None None p) w) as Ht.
    unfold New in Herr. cbv zeta in Ht.
    destruct (readFromFile gob env _ w) as [[c1 w1] [[]|e1|msg]];
      try done.
    injection Herr as <- <-. by apply Ht.
Qed.

(** ** GetAll *)

(** X7. A [GetAll] that fails leaves the store as it was, map and handle,
    and has changed the content of no file; [GetAll] never panics. *)
Theorem GetAll_failure (env : Env) (c c' : Config) (w w' : World) (e : error)
    (Herr : GetAll gob env c w = (c', w', Err e)) :
  c' = c /\ forall p, content w' p = content w p.
Proof.
  rewrite GetAll_unfold in Herr.
  pose proof (readFromFile_result env c w) as (Hcont & _ & Hkeep).
  destruct (readFromFile gob env c w) as [[c1 w1] [[]|e1|msg]]; try done.
  injection Herr as <- <- <-. split; [by eapply Hkeep | done].
Qed.

(** X8. A [GetAll] that succeeds has opened the file of the store's path
    and closed nothing: the handle the store held before, if any, is
    replaced without being closed. *)
Theorem GetAll_closes_nothing (env : Env) (c c' : Config) (w w' : World)
    (m : gmap string value)
    (Hok : GetAll gob env c w = (c', w', Ok m)) :
  file c' = Some (path c) /\
  exists pre, trace w' = (pre ++ trace w)%list /\
    (SysOpen, path c) ∈ pre /\ forall f, (SysClose, f) ∉ pre.
Proof.
  rewrite GetAll_unfold in Hok.
  pose proof (readFromFile_trace env c w) as Ht. cbv zeta in Ht.
  destruct (readFromFile gob env c w) as [[c1 w1] [[]|e1|msg]] eqn:Hread;
    try done.
  injection Hok as <- <- <-. split; [|exact Ht].
  by destruct (readFromFile_ok_file gob _ _ _ _ _ Hread).
Qed.

(** X9. [GetAll] answers from the disk alone: two stores on the same
    path, whatever their maps and handles, get the same answer, leave the
    same world, and after a success hold the same map, of which the
    answer is the copy. *)
Theorem GetAll_from_disk (env : Env) (c1 c2 : Config) (w : World)
    (Hp : path c1 = path c2) :
  (GetAll gob env c1 w).2 = (GetAll gob env c2 w).2 /\
  (GetAll gob env c1 w).1.2 = (GetAll gob env c2 w).1.2 /\
  (forall m, (GetAll gob env c1 w).2 = Ok m ->
     (GetAll gob env c1 w).1.1 = (GetAll gob env c2 w).1.1 /\
     m = default ∅ (data (GetAll gob env c1 w).1.1)).
Proof.
  rewrite !GetAll_unfold.
  pose proof (readFromFile_path_only env c1 c2 w Hp) as (Hw & Hr & Hc).
  cbv zeta in Hw, Hr, Hc.
  destruct (readFromFile gob env c1 w) as [[a1 w1] r1].
  destruct (readFromFile gob env c2 w) as [[a2 w2] r2].
  cbn in Hw, Hr, Hc. subst w2 r2.
  destruct r1 as [[]|e|msg]; cbn; try done.
  rewrite <- (Hc tt eq_refl). split_and!; [done..|].
  by intros m [= <-].
Qed.

(** X10. Opening and reloading never change the content of a file: after
    [New] and after [GetAll], whatever their outcome, every path has the
    content it had (a file that was missing is empty). *)
Theorem reading_keeps_contents (env : Env) (c : Config) (w : World)
    (p q : string) :
  content (New gob q env w).1 p = content w p /\
  content (GetAll gob env c w).1.2 p = content w p.
Proof.
  split.
  - rewrite New_world. apply readFromFile_result.
  - rewrite GetAll_unfold.
    pose proof (readFromFile_result env c w) as (Hcont & _ & _).
    by destruct (readFromFile gob env c w) as [[c1 w1] [[]|e1|msg]].
Qed.

(** ** Set and Finish on the disk *)

(** The world after a [Set] that succeeded. *)
Lemma Set_ok_world (env : Env) (c c' : Config) (w w' : World)
    (k : string) (v : value) :
  Set_ gob k v env c w = (c', w', Ok tt) ->
  exists f bs, file c' = Some f /\
    gobEncode gob (data c') = (bs, None) /\
    w' = mkWorld (<[f := bs]> (files w))
           ((SysSync, f) :: (SysWrite, f) :: (SysSeek, f)
              :: (SysTruncate, f) :: trace w).
Proof.
  intros Hs.
  destruct (Set_cases env c w k v) as [H|[H|(nv & m & Hv & Hm & H)]];
    rewrite H in Hs; try done.
  pose proof (flush_config gob env
    (mkConfig (Some (<[k := nv]> m)) (file c) (path c)) w) as [Hc _].
  rewrite Hs in Hc. cbn in Hc. subst c'.
  destruct (flush_ok_world _ _ _ _ _ Hs) as (f & bs & Hf & Henc & ->).
  by exists f, bs.
Qed.

(** X11. A [Set] that returns nil has written through: the file of the
    handle holds the bytes that the encoder emitted for the map now in
    memory, the encoder reported no error, no other file changed, and
    the last call made before returning is the sync of that file. *)
Theorem Set_writes_through (env : Env) (c c' : Config) (w w' : World)
    (k : string) (v : value)
    (Hs : Set_ gob k v env c w = (c', w', Ok tt)) :
  exists f bs, file c' = Some f /\
    gobEncode gob (data c') = (bs, None) /\
    files w' = <[f := bs]> (files w) /\
    exists t, trace w' = (SysSync, f) :: t.
Proof.
  destruct (Set_ok_world _ _ _ _ _ _ _ Hs) as (f & bs & Hf & Henc & ->).
  exists f, bs. split_and!; [done..|]. by eexists.
Qed.

(** X12. [Set] and [Finish] touch no file but that of the handle,
    whatever their outcome. *)
Theorem Set_Finish_other_files (env : Env) (c : Config) (w : World)
    (k : string) (v : value) (p : string) (Hp : file c <> Some p) :
  files (Set_ gob k v env c w).1.2 !! p = files w !! p /\
  files (Finish gob env c w).1.2 !! p = files w !! p.
Proof.
  split.
  - destruct (Set_cases env c w k v) as [H|[H|(nv & m & Hv & Hm & H)]];
      rewrite H; try done.
    by apply flush_frame.
  - rewrite Finish_files. by apply flush_frame.
Qed.

(** X13. A [Set] that returns an error has left all files as they were,
    or has left in the file of the handle a prefix, possibly empty,
    possibly all, of the bytes for the map now in memory: the former
    content is gone. *)
Theorem Set_failed_file (env : Env) (c c' : Config) (w w' : World)
    (k : string) (v : value) (e : error)
    (Hs : Set_ gob k v env c w = (c', w', Err e)) :
  files w' = files w \/
  exists f, file c = Some f /\
    content w' f `prefix_of` (gobEncode gob (data c')).1.
Proof.
  destruct (Set_cases env c w k v) as [H|[H|(nv & m & Hv & Hm & H)]];
    rewrite H in Hs; try done.
  - injection Hs as <- <- <-. by left.
  - pose proof (flush_config gob env
      (mkConfig (Some (<[k := nv]> m)) (file c) (path c)) w) as [Hc _].
    rewrite Hs in Hc. cbn in Hc. subst c'.
    exact (flush_failed_content _ _ _ _ _ _ Hs).
Qed.

(** X14. [Finish] never changes the map, whatever its outcome: every
    getter answers after it what it answered before, also on the store
    it has closed. *)
Theorem Finish_keeps_getters (arch : Arch) (env : Env) (c : Config)
    (w : World) (k : string) :
  let c' := (Finish gob env c w).1.1 in
  GetString c' k = GetString c k /\ GetInt arch c' k = GetInt arch c k /\
  GetFloat64 c' k = GetFloat64 c k /\ GetBool c' k = GetBool c k.
Proof.
  intros c'. destruct (Finish_result env c w) as (Hd & _).
  unfold GetString, GetInt, GetFloat64, GetBool. fold c' in Hd.
  by rewrite Hd.
Qed.

(** X15. A [Finish] that returns an error is one of three. The store
    was closed already: nothing was done. Or the flush failed: the error
    is that of the flush, wrapped; no close was tried, and the store is
    as it was, map and handle. Or the flush succeeded and the close
    failed: the error is that of the close, wrapped, the close being the
    last call made; the map is as it was and its bytes are in the file.
    [Finish] never panics. *)
Theorem Finish_failure (env : Env) (c c' : Config) (w w' : World) (e : error)
    (Herr : Finish gob env c w = (c', w', Err e)) :
  (file c = None /\ e = errorString "config file already closed" /\
   c' = c /\ w' = w) \/
  (exists e', e = wrap "failed to flush config" e' /\
     flushUnsafeLocked gob env c w = (c, w', Err e') /\ c' = c) \/
  (exists f, file c = Some f /\
     e = wrap "failed to close config file" (PathError SysClose f) /\
     data c' = data c /\
     gobEncode gob (data c) = (content w' f, None) /\
     exists t, trace w' = (SysClose, f) :: t).
Proof.
  destruct (file c) as [f|] eqn:Hf.
  - right. revert Herr.
    unfold Finish, mbind, M_bind, bind, self, orelse. rewrite Hf.
    pose proof (flush_config gob env c w) as [Hc Hp].
    destruct (flushUnsafeLocked gob env c w) as [[c1 w1] [[]|e'|msg]] eqn:Hfl;
      cbn in Hc; subst c1.
    + unfold sys, throw, store_file, id.
      destruct (fails env SysClose); [|done]. intros [= <- <- <-].
      right. exists f. split_and!; [done..| |by eexists].
      destruct (flush_ok gob _ _ _ _ _ Hfl) as (f' & Hf' & Henc & _).
      by assert (f' = f) as -> by congruence.
    + unfold throw. intros [= <- <- <-]. left. by exists e'.
    + by destruct (Hp msg).
  - left. rewrite (Finish_closed gob env c w Hf) in Herr.
    by injection Herr as <- <- <-.
Qed.

(** ** Set in memory *)

(** The map after a [Set], whatever its outcome. *)
Lemma Set_data (env : Env) (c : Config) (w : World) (k : string) (v : value) :
  data (Set_ gob k v env c w).1.1 = data c \/
  exists nv m, normalize v = Some nv /\ data c = Some m /\
    data (Set_ gob k v env c w).1.1 = Some (<[k := nv]> m).
Proof.
  destruct (Set_cases env c w k v) as [H|[H|(nv & m & Hv & Hm & H)]];
    [left; by rewrite H..|].
  right. exists nv, m. split_and!; [done..|].
  by rewrite (Set_receiver gob env c w k v nv m Hv Hm).
Qed.

(** X16. A [Set] on one key, whatever its outcome, leaves every other key
    as it was: the getters answer on them what they answered before. *)
Theorem Set_other_keys (arch : Arch) (env : Env) (c : Config) (w : World)
    (k k' : string) (v : value) (Hk : k <> k') :
  let c' := (Set_ gob k v env c w).1.1 in
  GetString c' k' = GetString c k' /\ GetInt arch c' k' = GetInt arch c k' /\
  GetFloat64 c' k' = GetFloat64 c k' /\ GetBool c' k' = GetBool c k'.
Proof.
  intros c'.
  assert (Hi : index (data c') k' = index (data c) k').
  { unfold c'. destruct (Set_data env c w k v) as [->|(nv & m & _ & Hm & ->)];
      [done|]. rewrite Hm. cbn. by apply lookup_insert_ne. }
  unfold GetString, GetInt, GetFloat64, GetBool. by rewrite Hi.
Qed.

(** X17. Two [Set]s of accepted values on the same key, whether their
    flushes succeed or not: the map is then what the second alone would
    have made it; nothing of the first value is left. *)
Theorem Set_overwrites (env1 env2 : Env) (c : Config) (w1 w2 : World)
    (k : string) (v1 v2 nv1 nv2 : value) (m : gmap string value)
    (Hm : data c = Some m)
    (Hv1 : normalize v1 = Some nv1) (Hv2 : normalize v2 = Some nv2) :
  data (Set_ gob k v2 env2 (Set_ gob k v1 env1 c w1).1.1 w2).1.1 =
    Some (<[k := nv2]> m) /\
  data (Set_ gob k v2 env2 (Set_ gob k v1 env1 c w1).1.1 w2).1.1 =
    data (Set_ gob k v2 env2 c w2).1.1.
Proof.
  rewrite (Set_receiver gob env1 c w1 k v1 nv1 m Hv1 Hm).
  rewrite (Set_receiver gob env2
             (mkConfig (Some (<[k := nv1]> m)) (file c) (path c)) w2 k v2 nv2
             (<[k := nv1]> m) Hv2 eq_refl).
  rewrite (Set_receiver gob env2 c w2 k v2 nv2 m Hv2 Hm).
  cbn. by rewrite insert_insert_eq.
Qed.


(** X19. An [int], [int32] or [int64] below [2^53] in absolute value
    that fits in an [int] comes back from [GetInt] as it went into [Set],
    whether the flush succeeded or not. *)
Theorem Set_int_GetInt (arch : Arch) (env : Env) (c : Config) (w : World)
    (k : string) (ik : intkind) (n : Z) (m : gmap string value)
    (Hik : ik = Int \/ ik = Int32 \/ ik = Int64)
    (Hm : data c = Some m)
    (Hn : - 2 ^ 53 < n < 2 ^ 53) (Hfit : fits_int arch n = true) :
  GetInt arch (Set_ gob k (VInteger ik n) env c w).1.1 k = (n, true).
Proof.
  assert (Hv : normalize (VInteger ik n) = Some (VFloat64 (float64_of_Z n)))
    by (by destruct Hik as [->|[->| ->]]).
  rewrite (Set_receiver gob env c w k _ _ m Hv Hm).
  unfold GetInt. rewrite index_stored. unfold int_of_float64.
  by rewrite (float_trunc_of_Z n Hn), Hfit.
Qed.

(** ** From one store to another *)

(** X20. After a [Set] that succeeded on a store whose handle is on its
    path, and before any [Finish], a [New] on that path (its system calls
    not failing, the decoder giving back the map from the encoder's
    bytes) returns a second store with the same map. *)
Theorem Set_visible_to_New (env env' : Env) (c c1 : Config) (w w1 : World)
    (k : string) (v : value)
    (Hfile : file c = Some (path c))
    (Hs : Set_ gob k v env c w = (c1, w1, Ok tt))
    (Hrt : forall bs, gobEncode gob (data c1) = (bs, None) ->
                      bs <> [] /\ gobDecode gob bs = (data c1, None))
    (Ho : fails env' SysOpen = false) (Hst : fails env' SysStat = false)
    (Hr : fails env' SysRead = false) (Hk : fails env' SysSeek = false) :
  exists w2,
    New gob (path c) env' w1 =
      (w2, Ok (mkConfig (data c1) (Some (path c)) (path c))).
Proof.
  destruct (Set_cases env c w k v) as [H|[H|(nv & m & Hv & Hm & H)]];
    rewrite H in Hs; try done.
  pose proof (flush_config gob env
    (mkConfig (Some (<[k := nv]> m)) (file c) (path c)) w) as [Hc _].
  rewrite Hs in Hc. cbn in Hc. subst c1.
  destruct (read_after_flush env env' _ _ (mkConfig None None (path c))
              w w1 (path c) Hs) as (w2 & Hread); try done.
  exists w2. by rewrite (New_unfold _ _ _ _ _ _ _ Hread).
Qed.

(** X21. After a [Set] that succeeded on one store, a [GetAll] on any
    other store on the same path (under the same conditions) answers the
    writer's map, and that store now holds it. *)
Theorem Set_visible_to_GetAll (env env' : Env) (c c1 cb : Config)
    (w w1 : World) (k : string) (v : value)
    (Hfile : file c = Some (path c)) (Hpath : path cb = path c)
    (Hs : Set_ gob k v env c w = (c1, w1, Ok tt))
    (Hrt : forall bs, gobEncode gob (data c1) = (bs, None) ->
                      bs <> [] /\ gobDecode gob bs = (data c1, None))
    (Ho : fails env' SysOpen = false) (Hst : fails env' SysStat = false)
    (Hr : fails env' SysRead = false) (Hk : fails env' SysSeek = false) :
  exists w2 mb,
    GetAll gob env' cb w1 =
      (mkConfig (data c1) (Some (path c)) (path c), w2, Ok mb) /\
    data c1 = Some mb.
Proof.
  destruct (Set_cases env c w k v) as [H|[H|(nv & m & Hv & Hm & H)]];
    rewrite H in Hs; try done.
  pose proof (flush_config gob env
    (mkConfig (Some (<[k := nv]> m)) (file c) (path c)) w) as [Hc _].
  rewrite Hs in Hc. cbn in Hc. subst c1.
  destruct (read_after_flush env env' _ _ cb w w1 (path c) Hs)
    as (w2 & Hread); try done.
  exists w2, (<[k := nv]> m). by rewrite GetAll_unfold, Hread.
Qed.

End CfgMore.

(* ===================================================================== *)
(** * The store at work, continued                                        *)
(* ===================================================================== *)

Section MoreRuns.
Import Wire.

(** X5 at work: scenario 1 of the specification. *)
Lemma New_creates_witness :
  files nothing !! path0 = None /\
  exists w',
    New codec path0 calm nothing = (w', Ok c0) /\
    files w' = <[path0 := []]> (files nothing).
Proof.
  split; [reflexivity|].
  exact (New_creates codec calm nothing path0 eq_refl eq_refl eq_refl
           eq_refl).
Defined.

(** X6 at work: the file that is no stream is closed again. *)
Lemma New_failure_witness :
  let r := New codec path0 calm garbage in
  r = (r.1, Err (wrap "unable to decode config file as JSON" unexpectedEOF))
  /\ exists t, trace r.1 = (SysClose, path0) :: t.
Proof.
  intros r.
  assert (H : r = (r.1, Err (wrap "unable to decode config file as JSON"
                               unexpectedEOF)))
    by (vm_compute; reflexivity).
  split; [exact H|].
  exact (New_failure codec calm garbage r.1 path0 _ H).
Defined.

(** X7 at work: the open fails. *)
Lemma GetAll_failure_witness :
  let r := GetAll codec open_fails c0 w0 in
  r.2 = Err (wrap "unable to open config file" (PathError SysOpen path0)) /\
  r.1.1 = c0.
Proof.
  intros r.
  assert (H : r = (r.1.1, r.1.2,
                   Err (wrap "unable to open config file"
                          (PathError SysOpen path0))))
    by (vm_compute; reflexivity).
  split; [vm_compute; reflexivity|].
  exact (proj1 (GetAll_failure codec open_fails c0 r.1.1 w0 r.1.2 _ H)).
Defined.

(** X8 at work: [GetAll] on the store just opened. *)
Lemma GetAll_closes_nothing_witness :
  let r := GetAll codec calm c0 w0 in
  r.2 = Ok ∅ /\ file c0 = Some path0 /\ file r.1.1 = Some path0 /\
  forall f, (SysClose, f) ∉ trace r.1.2.
Proof.
  intros r.
  assert (H : r = (r.1.1, r.1.2, Ok ∅)) by (vm_compute; reflexivity).
  destruct (GetAll_closes_nothing codec calm c0 r.1.1 w0 r.1.2 ∅ H)
    as (Hf & pre & Ht & _ & Hno).
  split_and!; [vm_compute; reflexivity | reflexivity | exact Hf |].
  intros f Hin. rewrite Ht in Hin. apply elem_of_app in Hin as [Hin|Hin].
  - by apply (Hno f).
  - vm_compute in Hin.
    repeat (apply elem_of_cons in Hin as [Hin|Hin]; [discriminate Hin|]).
    by apply elem_of_nil in Hin.
Defined.

(** X9 at work: a store whose last flush failed holds a key that the
    disk does not; [GetAll] answers as on the store that never had it. *)
Lemma GetAll_from_disk_witness :
  let r := Set_ codec "key" (VString "value") sync_fails c0 w0 in
  index (data r.1.1) "key" = Some (VString "value") /\
  (GetAll codec calm r.1.1 w0).2 = (GetAll codec calm c0 w0).2.
Proof.
  intros r. split; [vm_compute; reflexivity|].
  exact (proj1 (GetAll_from_disk codec calm r.1.1 c0 w0 eq_refl)).
Defined.

(** X11 at work. *)
Lemma Set_writes_through_witness :
  let r := Set_ codec "key" (VString "value") calm c0 w0 in
  r.2 = Ok tt /\
  exists f bs, file r.1.1 = Some f /\
    gobEncode codec (data r.1.1) = (bs, None) /\
    files r.1.2 = <[f := bs]> (files w0) /\
    exists t, trace r.1.2 = (SysSync, f) :: t.
Proof.
  intros r.
  assert (H : r = (r.1.1, r.1.2, Ok tt)) by (vm_compute; reflexivity).
  split; [vm_compute; reflexivity|].
  exact (Set_writes_through codec calm c0 r.1.1 w0 r.1.2 "key"
           (VString "value") H).
Defined.

(** X12 at work: another file is left alone. *)
Lemma Set_Finish_other_files_witness :
  file c0 <> Some "other.gob" /\
  files (Set_ codec "key" (VString "value") calm c0 w0).1.2 !! "other.gob"
    = files w0 !! "other.gob".
Proof.
  assert (H : file c0 <> Some "other.gob") by discriminate.
  split; [exact H|].
  exact (proj1 (Set_Finish_other_files codec calm c0 w0 "key"
                  (VString "value") "other.gob" H)).
Defined.

(** X13 at work: the write fails after three bytes. *)
Lemma Set_failed_file_witness :
  let r := Set_ codec "key" (VString "value") write_fails c0 w0 in
  r.2 = Err (PathError SysWrite path0) /\
  length (content r.1.2 path0) = 3%nat /\
  (files r.1.2 = files w0 \/
   exists f, file c0 = Some f /\
     content r.1.2 f `prefix_of` (gobEncode codec (data r.1.1)).1).
Proof.
  intros r.
  assert (H : r = (r.1.1, r.1.2, Err (PathError SysWrite path0)))
    by (vm_compute; reflexivity).
  split_and!; [vm_compute; reflexivity..|].
  exact (Set_failed_file codec write_fails c0 r.1.1 w0 r.1.2 "key"
           (VString "value") _ H).
Defined.

(** X15 at work: the sync of [Finish] fails, the store stays open. *)
Lemma Finish_failure_witness :
  let r := Finish codec sync_fails c0 w0 in
  r.2 = Err (wrap "failed to flush config" (PathError SysSync path0)) /\
  r.1.1 = c0 /\ file r.1.1 = Some path0.
Proof.
  intros r.
  assert (H : r = (r.1.1, r.1.2,
                   Err (wrap "failed to flush config"
                          (PathError SysSync path0))))
    by (vm_compute; reflexivity).
  assert (Hc : r.1.1 = c0).
  { destruct (Finish_failure codec sync_fails c0 r.1.1 w0 r.1.2 _ H)
      as [(Hn & _)|[(e' & _ & _ & Hc)|(f & _ & He & _)]];
      [discriminate Hn | exact Hc | discriminate He]. }
  split_and!; [vm_compute; reflexivity | exact Hc | by rewrite Hc].
Defined.

(** X16 at work. *)
Lemma Set_other_keys_witness :
  let c := (Set_ codec "a" (VString "x") calm c0 w0).1.1 in
  let c' := (Set_ codec "b" (VBool true) calm c w0).1.1 in
  GetString c "a" = ("x", true) /\ GetString c' "a" = GetString c "a".
Proof.
  intros c c'. split; [vm_compute; reflexivity|].
  assert (H : "b" <> "a") by discriminate.
  exact (proj1 (Set_other_keys codec amd64 calm c w0 "b" "a" (VBool true) H)).
Defined.

(** X17 at work. *)
Lemma Set_overwrites_witness :
  data (Set_ codec "k" (VBool true) calm
          (Set_ codec "k" (VString "x") sync_fails c0 w0).1.1 w0).1.1 =
    Some (<["k" := VBool true]> ∅).
Proof.
  exact (proj1 (Set_overwrites codec sync_fails calm c0 w0 w0 "k"
                  (VString "x") (VBool true) (VString "x") (VBool true) ∅
                  eq_refl eq_refl eq_refl)).
Defined.


(** X19 at work: the package's test of [GetInt]. *)
Lemma Set_int_GetInt_witness :
  GetInt amd64 (Set_ codec "int_key" (VInteger Int 42) calm c0 w0).1.1
    "int_key" = (42, true).
Proof.
  apply (Set_int_GetInt codec amd64 calm c0 w0 "int_key" Int 42 ∅);
    [by left | reflexivity | lia | reflexivity].
Defined.

(** The map written by [Set("test_key", "test_val")] comes back from its
    bytes. *)
Lemma test_val_round_trip :
  let c1 := (Set_ codec "test_key" (VString "test_val") calm c0 w0).1.1 in
  forall bs, gobEncode codec (data c1) = (bs, None) ->
             bs <> [] /\ gobDecode codec bs = (data c1, None).
Proof.
  intros c1 bs Hbs. vm_compute in Hbs. injection Hbs as <-.
  split; [discriminate | vm_compute; reflexivity].
Defined.

(** X20 at work: the package's test of the flush after [Set]. *)
Lemma Set_visible_to_New_witness :
  let r := Set_ codec "test_key" (VString "test_val") calm c0 w0 in
  r.2 = Ok tt /\
  exists w2 c2,
    New codec path0 calm r.1.2 = (w2, Ok c2) /\
    GetString c2 "test_key" = ("test_val", true).
Proof.
  intros r.
  assert (H : r = (r.1.1, r.1.2, Ok tt)) by (vm_compute; reflexivity).
  split; [vm_compute; reflexivity|].
  destruct (Set_visible_to_New codec calm calm c0 r.1.1 w0 r.1.2 "test_key"
              (VString "test_val") eq_refl H test_val_round_trip
              eq_refl eq_refl eq_refl eq_refl) as (w2 & HN).
  exists w2, (mkConfig (data r.1.1) (Some path0) path0).
  split; [exact HN | vm_compute; reflexivity].
Defined.

(** X21 at work: a second store, opened before the write, sees it. *)
Lemma Set_visible_to_GetAll_witness :
  let r := Set_ codec "test_key" (VString "test_val") calm c0 w0 in
  r.2 = Ok tt /\
  exists w2 cb mb,
    GetAll codec calm c0 r.1.2 = (cb, w2, Ok mb) /\
    mb !! "test_key" = Some (VString "test_val").
Proof.
  intros r.
  assert (H : r = (r.1.1, r.1.2, Ok tt)) by (vm_compute; reflexivity).
  split; [vm_compute; reflexivity|].
  destruct (Set_visible_to_GetAll codec calm calm c0 r.1.1 c0 w0 r.1.2
              "test_key" (VString "test_val") eq_refl eq_refl H
              test_val_round_trip eq_refl eq_refl eq_refl eq_refl)
    as (w2 & mb & HG & Hmb).
  exists w2, (mkConfig (data r.1.1) (Some path0) path0), mb.
  split; [exact HG|].
  assert (Hd : data r.1.1 = Some {["test_key" := VString "test_val"]})
    by (vm_compute; reflexivity).
  rewrite Hd in Hmb. injection Hmb as <-. vm_compute. reflexivity.
Defined.

End MoreRuns.
